(** * LEDControl: the per-strip animation state machine

    A shallow embedding of [LEDControl.cpp] (an Arduino library on top of
    FastLED): the constructor, the mode setters and [update], the function
    that advances a strip by one tick, with the two shift helpers.

    Conventions of the embedding.
    - [int] values are integers.  The one computation that can leave the
      range of an [int] is the product [_ledCount*percent] of
      [setProgress]: it is exact within the 16 bits every [int] has, and
      the platform's beyond ([mul_int]).
    - [unsigned long] is the 32-bit type of the Arduino boards; its
      wrap-around is written out ([to_ulong]).
    - The pixel array belongs to the caller and is reached through a
      pointer.  It is a list here; a read or write outside of it, like any
      other behaviour the language leaves undefined, makes the operation
      return [None].
    - What lives outside of the file (the header with the numeric values of
      the mode constants, FastLED's colour conversions, the machine's
      treatment of a too large shift count and of a too large product) is
      collected in a [Platform]. *)

From stdpp Require Import base numbers option list.
From Stdlib Require Import ZArith Lia.

Local Open Scope Z_scope.

(** ** Colours *)

(** FastLED's [CRGB]: three 8-bit channels. *)
Record CRGB : Type := mkCRGB { red : Z; green : Z; blue : Z }.

(** [CRGB::Black] *)
Definition Black : CRGB := mkCRGB 0 0 0.

(** [operator==] on [CRGB] compares the three channels. *)
Definition CRGB_eqb (a b : CRGB) : bool :=
  (red a =? red b) && (green a =? green b) && (blue a =? blue b).

(** ** Modes *)

(** Modelled from the spec: [LEDControl.h], which declares the mode
    constants, is not among the sources.  The constructors are the case
    labels of the [switch] in [update], the modes the spec lists;
    [_mode] is only ever assigned one of them. *)
Inductive Mode : Type :=
  | MODE_UNDEF | MODE_OFF | MODE_ON | MODE_RUNFWD | MODE_RUNREV
  | MODE_RAINBF | MODE_RAINBR | MODE_CYLON | MODE_BITMAP | MODE_MARQUEE
  | MODE_BREATHE.

(** ** What the file takes from outside *)

Record Platform : Type := mkPlatform {
  (** the [int] behind each mode constant (the header is not at hand) *)
  code : Mode -> Z;
  (** FastLED: the conversion run by [leds[i] = CHSV(h,s,v)] *)
  hsv2rgb : Z -> Z -> Z -> CRGB;
  (** FastLED: [c %= scale], which dims a colour *)
  nscale8_video : CRGB -> Z -> CRGB;
  (** [x << s] and [x >> s] for a count [s] outside of [0..31], which
      C++ leaves undefined and machines answer differently *)
  shl_wide : Z -> Z -> Z;
  shr_wide : Z -> Z -> Z;
  (** [a * b] on two [int]s when the product leaves the 16-bit range:
      exact as long as it fits the [int] of the board, which has 16 or 32
      bits, and left undefined by C++ beyond *)
  mul_wide : Z -> Z -> Z
}.

(** ** [int] arithmetic *)

(** The range every [int] has. *)
Definition fits_int16 (x : Z) : bool := (-32768 <=? x) && (x <=? 32767).

(** [a * b] on two [int]s. *)
Definition mul_int (P : Platform) (a b : Z) : Z :=
  if fits_int16 (a * b) then a * b else mul_wide P a b.

(** The machine answer of a board with 32-bit [int]s in two's complement:
    the product wraps round, that is, it loses the multiple of [2 ^ 32]
    that brings it into the range from [- 2 ^ 31] to [2 ^ 31 - 1]. *)
Definition mul_wrap32 (a b : Z) : Z :=
  let x := a * b in
  x - Z.shiftl (Z.shiftr (x + Z.shiftl 1 31) 32) 32.

(** ** 32-bit unsigned arithmetic *)

Definition ULONG_BITS : Z := 32.

Definition to_ulong (x : Z) : Z := x mod 2 ^ ULONG_BITS.

Definition shift_in_range (s : Z) : bool := (0 <=? s) && (s <? ULONG_BITS).

Definition shl_ul (P : Platform) (x s : Z) : Z :=
  to_ulong (if shift_in_range s then Z.shiftl x s else shl_wide P x s).

Definition shr_ul (P : Platform) (x s : Z) : Z :=
  to_ulong (if shift_in_range s then Z.shiftr x s else shr_wide P x s).

(** The machine answer the x86 family gives: only the low five bits of
    the count are used. *)
Definition shl_count_mod32 (x s : Z) : Z := Z.shiftl x (s mod ULONG_BITS).
Definition shr_count_mod32 (x s : Z) : Z := Z.shiftr x (s mod ULONG_BITS).

(** ** The pixel array *)

Definition load {A : Type} (a : list A) (i : Z) : option A :=
  if 0 <=? i then a !! Z.to_nat i else None.

Definition store {A : Type} (a : list A) (i : Z) (x : A) : option (list A) :=
  if (0 <=? i) && (i <? Z.of_nat (length a))
  then Some (<[Z.to_nat i := x]> a) else None.

(** [n] rounds of a [for] loop whose counter starts at [i] and moves by
    [step]; the body may fail. *)
Fixpoint for_loop {A : Type} (n : nat) (i step : Z)
    (body : Z -> A -> option A) (a : A) : option A :=
  match n with
  | O => Some a
  | S n' => a' ← body i a; for_loop n' (i + step) step body a'
  end.

(** FastLED: [fill_solid(leds, n, c)] is
    [for (int i = 0; i < n; ++i) leds[i] = c;] *)
Definition fill_solid (leds : list CRGB) (n : Z) (c : CRGB) : option (list CRGB) :=
  for_loop (Z.to_nat n) 0 1 (fun i l => store l i c) leds.

(** ** The object *)

(** Modelled from the spec: the class declaration of [LEDControl.h] is
    not among the sources.  The fields are those the member functions
    use.  [_bitmap] is an [unsigned long]; [_config] (the spec's dimStep)
    and [_curdir] (its direction), whose declared types are not visible,
    are integers, and [_curdir] holds the literal 0 or the [int] of a mode
    constant. *)
Record LEDControl : Type := mkLEDControl {
  _ledCount : Z;
  _leds : list CRGB;
  _newMode : bool;
  _mode : Mode;
  _color : CRGB;
  _config : Z;
  _curdir : Z;
  _bitmap : Z
}.

Definition set_leds (st : LEDControl) (l : list CRGB) : LEDControl :=
  mkLEDControl (_ledCount st) l (_newMode st) (_mode st) (_color st)
               (_config st) (_curdir st) (_bitmap st).
Definition set_newMode (st : LEDControl) (b : bool) : LEDControl :=
  mkLEDControl (_ledCount st) (_leds st) b (_mode st) (_color st)
               (_config st) (_curdir st) (_bitmap st).
Definition set_mode (st : LEDControl) (m : Mode) : LEDControl :=
  mkLEDControl (_ledCount st) (_leds st) (_newMode st) m (_color st)
               (_config st) (_curdir st) (_bitmap st).
Definition set_color (st : LEDControl) (c : CRGB) : LEDControl :=
  mkLEDControl (_ledCount st) (_leds st) (_newMode st) (_mode st) c
               (_config st) (_curdir st) (_bitmap st).
Definition set_config (st : LEDControl) (x : Z) : LEDControl :=
  mkLEDControl (_ledCount st) (_leds st) (_newMode st) (_mode st) (_color st)
               x (_curdir st) (_bitmap st).
Definition set_curdir (st : LEDControl) (d : Z) : LEDControl :=
  mkLEDControl (_ledCount st) (_leds st) (_newMode st) (_mode st) (_color st)
               (_config st) d (_bitmap st).
Definition set_bitmap (st : LEDControl) (b : Z) : LEDControl :=
  mkLEDControl (_ledCount st) (_leds st) (_newMode st) (_mode st) (_color st)
               (_config st) (_curdir st) b.

(** The dimming table of Breathe. *)
Definition _dimming : list Z :=
  [235; 206; 179; 154; 131; 110; 91; 74; 59; 46; 35; 26; 19; 14; 11; 10].
Definition _numdims : Z := 16.

(** The constructor saves its arguments and has no failing path.  It
    leaves [_bitmap] without a value; [junk] is whatever the field holds. *)
Definition LEDControl_new (num_leds : Z) (leds : list CRGB) (junk : Z) : LEDControl :=
  {| _ledCount := num_leds; _leds := leds; _newMode := true;
     _mode := MODE_OFF; _color := Black; _config := 0; _curdir := 0;
     _bitmap := to_ulong junk |}.

(** Construction as an operation that could fail: it never does. *)
Definition construct (num_leds : Z) (leds : list CRGB) (junk : Z) : option LEDControl :=
  Some (LEDControl_new num_leds leds junk).

Section Operations.

Variable P : Platform.

Definition getMode (st : LEDControl) : Z := code P (_mode st).

(** *** The setters: none touches the pixels *)

Definition setOneColor (st : LEDControl) (color : CRGB) : LEDControl :=
  set_color (set_mode (set_newMode st true) MODE_ON) color.

Definition setRunFwd (st : LEDControl) (color : CRGB) : LEDControl :=
  set_color (set_mode (set_newMode st true) MODE_RUNFWD) color.

Definition setRunRev (st : LEDControl) (color : CRGB) : LEDControl :=
  set_color (set_mode (set_newMode st true) MODE_RUNREV) color.

Definition setRainbowFwd (st : LEDControl) : LEDControl :=
  set_mode (set_newMode st true) MODE_RAINBF.

Definition setRainbowRev (st : LEDControl) : LEDControl :=
  set_mode (set_newMode st true) MODE_RAINBR.

Definition setCylon (st : LEDControl) (color : CRGB) : LEDControl :=
  set_color (set_mode (set_newMode st true) MODE_CYLON) color.

(** The [unsigned long] argument is converted at the call. *)
Definition setPattern (st : LEDControl) (color : CRGB) (bitmap : Z) : LEDControl :=
  set_bitmap (set_color (set_mode (set_newMode st true) MODE_BITMAP) color)
             (to_ulong bitmap).

(** [int lit = (_ledCount*percent)/100.0;] multiplies two [int]s, then
    divides in floating point and converts back, which drops the fraction:
    the quotient of an integer by 100 is never close enough to the next
    integer for the rounding of the division to reach it, so [lit] is the
    truncated integer quotient. *)
Definition setProgress (st : LEDControl) (color : CRGB) (percent : Z) : LEDControl :=
  let st := set_color (set_mode (set_newMode st true) MODE_BITMAP) color in
  let percent := if percent >? 100 then 100 else percent in
  let percent := if percent <? 0 then 0 else percent in
  let lit := Z.quot (mul_int P (_ledCount st) percent) 100 in
  set_bitmap st (to_ulong (shl_ul P 1 lit - 1)).

Definition setMarquee (st : LEDControl) (color : CRGB) (bitmap : Z) : LEDControl :=
  set_bitmap (set_color (set_mode (set_newMode st true) MODE_MARQUEE) color)
             (to_ulong bitmap).

Definition setBreathe (st : LEDControl) (color : CRGB) : LEDControl :=
  set_color
    (set_curdir (set_config (set_mode (set_newMode st true) MODE_BREATHE) 0)
                (code P MODE_RUNFWD))
    color.

(** *** The shift helpers *)

Definition shiftFwd (st : LEDControl) : option LEDControl :=
  last ← load (_leds st) (_ledCount st - 1);
  leds ← for_loop (Z.to_nat (_ledCount st - 1)) (_ledCount st - 1) (-1)
         (fun i l => x ← load l (i - 1); store l i x) (_leds st);
  leds ← store leds 0 last;
  Some (set_leds st leds).

Definition shiftRev (st : LEDControl) : option LEDControl :=
  first ← load (_leds st) 0;
  leds ← for_loop (Z.to_nat (_ledCount st - 1)) 0 1
         (fun i l => x ← load l (i + 1); store l i x) (_leds st);
  leds ← store leds (_ledCount st - 1) first;
  Some (set_leds st leds).

(** *** One tick *)

(** [(_bitmap & (mask<<i)) != 0] with [mask = 1] *)
Definition bit_set (bitmap i : Z) : bool :=
  negb (Z.land bitmap (shl_ul P 1 i) =? 0).

(** The loop of the Rainbow modes.  The hue argument of [CHSV] is a byte. *)
Definition load_rainbow (st : LEDControl) (delta : Z) : option (list CRGB) :=
  for_loop (Z.to_nat (_ledCount st)) 0 1
    (fun i l => store l i (hsv2rgb P ((i * delta) mod 256) 255 255)) (_leds st).

(** The loop of Pattern and of the first tick of Marquee. *)
Definition paint_set_bits (st : LEDControl) (m : Z) (leds : list CRGB) : option (list CRGB) :=
  for_loop (Z.to_nat m) 0 1
    (fun i l => if bit_set (_bitmap st) i then store l i (_color st) else Some l)
    leds.

(** The loop of the later ticks of Marquee. *)
Definition paint_all_bits (st : LEDControl) (m : Z) (leds : list CRGB) : option (list CRGB) :=
  for_loop (Z.to_nat m) 0 1
    (fun i l => if bit_set (_bitmap st) i then store l i (_color st)
                else store l i Black)
    leds.

Definition update (st : LEDControl) : option LEDControl :=
  match _mode st with
  | MODE_UNDEF => Some st
  | MODE_OFF =>
      if _newMode st then
        leds ← fill_solid (_leds st) (_ledCount st) Black;
        Some (set_newMode (set_leds st leds) false)
      else Some st
  | MODE_ON =>
      if _newMode st then
        leds ← fill_solid (_leds st) (_ledCount st) (_color st);
        Some (set_newMode (set_leds st leds) false)
      else Some st
  | MODE_RUNFWD =>
      if _newMode st then
        leds ← fill_solid (_leds st) (_ledCount st) Black;
        leds ← store leds 0 (_color st);
        Some (set_newMode (set_leds st leds) false)
      else shiftFwd st
  | MODE_RUNREV =>
      if _newMode st then
        leds ← fill_solid (_leds st) (_ledCount st) Black;
        leds ← store leds (_ledCount st - 1) (_color st);
        Some (set_newMode (set_leds st leds) false)
      else shiftRev st
  | MODE_RAINBF =>
      if _ledCount st =? 0 then None else
      let delta := Z.quot 256 (_ledCount st) in
      if _newMode st then
        leds ← load_rainbow st delta;
        Some (set_mode (set_newMode (set_leds st leds) false) MODE_RUNFWD)
      else Some st
  | MODE_RAINBR =>
      if _ledCount st =? 0 then None else
      let delta := Z.quot 256 (_ledCount st) in
      if _newMode st then
        leds ← load_rainbow st delta;
        Some (set_mode (set_newMode (set_leds st leds) false) MODE_RUNREV)
      else Some st
  | MODE_CYLON =>
      if _newMode st then
        leds ← fill_solid (_leds st) (_ledCount st) Black;
        leds ← store leds 0 (_color st);
        Some (set_newMode (set_curdir (set_leds st leds) (code P MODE_RUNFWD)) false)
      else if _curdir st =? code P MODE_RUNFWD then
        last ← load (_leds st) (_ledCount st - 1);
        if CRGB_eqb last (_color st)
        then Some (set_curdir st (code P MODE_RUNREV))
        else shiftFwd st
      else
        first ← load (_leds st) 0;
        if CRGB_eqb first (_color st)
        then Some (set_curdir st (code P MODE_RUNFWD))
        else shiftRev st
  | MODE_BITMAP =>
      if _newMode st then
        leds ← fill_solid (_leds st) (_ledCount st) Black;
        let m := Z.min (_ledCount st) 32 in
        leds ← paint_set_bits st m leds;
        Some (set_newMode (set_leds st leds) false)
      else Some st
  | MODE_MARQUEE =>
      if _newMode st then
        leds ← fill_solid (_leds st) (_ledCount st) Black;
        let m := Z.min (_ledCount st) 32 in
        leds ← paint_set_bits st m leds;
        Some (set_newMode (set_leds st leds) false)
      else
        let m := Z.min (_ledCount st) 32 in
        let st := set_bitmap st
                    (Z.lor (shl_ul P (_bitmap st) 1)
                           (shr_ul P (_bitmap st) (to_ulong (m - 1)))) in
        leds ← paint_all_bits st m (_leds st);
        Some (set_leds st leds)
  | MODE_BREATHE =>
      let st := if _newMode st
                then set_config (set_curdir (set_newMode st false)
                                            (code P MODE_RUNFWD)) 0
                else st in
      scale ← load _dimming (_config st);
      let c := nscale8_video P (_color st) scale in
      leds ← fill_solid (_leds st) (_ledCount st) c;
      let st := set_leds st leds in
      if _curdir st =? code P MODE_RUNFWD then
        if _config st =? _numdims - 1
        then Some (set_curdir st (code P MODE_RUNREV))
        else Some (set_config st (_config st + 1))
      else
        if _config st =? 0
        then Some (set_curdir st (code P MODE_RUNFWD))
        else Some (set_config st (_config st - 1))
  end.

(** [n] ticks in a row, with no setter call in between. *)
Fixpoint ticks (n : nat) (st : LEDControl) : option LEDControl :=
  match n with
  | O => Some st
  | S n' => st' ← update st; ticks n' st'
  end.

End Operations.

(** ** Vocabulary of the statements *)

(** The object and the caller's array agree on the number of pixels. *)
Definition strip_ok (st : LEDControl) : Prop :=
  _ledCount st = Z.of_nat (length (_leds st)).

(** A strip of [n] pixels, all black but pixel [i], which shows [c]. *)
Definition one_hot (n i : Z) (c : CRGB) : list CRGB :=
  <[Z.to_nat i := c]> (replicate (Z.to_nat n) Black).

(** The indices of the pixels equal to [c], in increasing order; the first
    pixel of [leds] has index [i]. *)
Fixpoint lit_from (i : Z) (c : CRGB) (leds : list CRGB) : list Z :=
  match leds with
  | [] => []
  | x :: l => (if CRGB_eqb x c then [i] else []) ++ lit_from (i + 1) c l
  end.

Definition lit_indices (c : CRGB) (leds : list CRGB) : list Z :=
  lit_from 0 c leds.

(** A strip of [n] pixels whose pixel [i] shows [c] when [i] is below [m]
    and bit [i] of [bitmap] is set, and is black otherwise. *)
Definition painted (n m bitmap : Z) (c : CRGB) : list CRGB :=
  (fun i => if (i <? m) && Z.testbit bitmap i then c else Black) <$> seqZ 0 n.

(** A bar of [n] pixels with the first [lit] in colour [c]. *)
Definition progress_bar (n lit : Z) (c : CRGB) : list CRGB :=
  replicate (Z.to_nat lit) c ++ replicate (Z.to_nat (n - lit)) Black.

(** The rainbow loaded by the first tick of the Rainbow modes. *)
Definition rainbow (P : Platform) (n : Z) : list CRGB :=
  (fun i => hsv2rgb P (i * Z.quot 256 n) 255 255) <$> seqZ 0 n.

(** Where the eye of the Cylon is on a strip of four pixels, [t] ticks
    after the first one. *)
Definition cylon4_pos (t : nat) : Z :=
  nth (t mod 8) [0; 1; 2; 3; 3; 2; 1; 0] 0.

(** Rotation to the left by one position within the low [m] bits. *)
Definition rotl (m x : Z) : Z :=
  Z.lor ((x * 2) mod 2 ^ m) ((x mod 2 ^ m) / 2 ^ (m - 1)).

(** Breathe moves over pairs of a step in the dimming table and a
    direction ([true] is forward, towards the dim end). *)
Definition dir_code (P : Platform) (fwd : bool) : Z :=
  if fwd then code P MODE_RUNFWD else code P MODE_RUNREV.

Definition breathe_next (s : Z * bool) : Z * bool :=
  let '(c, fwd) := s in
  if fwd
  then (if c =? _numdims - 1 then (c, false) else (c + 1, true))
  else (if c =? 0 then (c, true) else (c - 1, false)).

(** [percent] after the two guards of [setProgress]. *)
Definition clamp_percent (percent : Z) : Z := Z.max 0 (Z.min 100 percent).

(** The strip after [shiftFwd]: the last pixel comes first. *)
Definition shifted_fwd (l : list CRGB) : list CRGB :=
  drop (length l - 1) l ++ take (length l - 1) l.

(** The strip after [shiftRev]: the first pixel goes last. *)
Definition shifted_rev (l : list CRGB) : list CRGB :=
  drop 1 l ++ take 1 l.

(** The Cylon on four pixels, [t] ticks after the first one: it runs
    forward during the first half of each round of eight ticks. *)
Definition cylon4_state (P : Platform) (base : LEDControl) (t : nat) : LEDControl :=
  set_curdir (set_leds base (one_hot 4 (cylon4_pos t) (_color base)))
             (dir_code P (t mod 8 <? 4)%nat).

(** The new bitmap of a later tick of Marquee:
    [(_bitmap << 1UL) | (_bitmap >> ((unsigned long)(m-1)))]. *)
Definition marquee_next (P : Platform) (m b : Z) : Z :=
  Z.lor (shl_ul P b 1) (shr_ul P b (to_ulong (m - 1))).

(** Marquee once the mode is not new: the strip shows the bitmap it holds. *)
Definition marquee_state (base : LEDControl) (b : Z) : LEDControl :=
  set_bitmap
    (set_leds base (painted (_ledCount base) (Z.min (_ledCount base) 32) b
                            (_color base)))
    b.

(** The bitmap has been rotated without trouble so far: nothing is set
    from bit [L] on, and below [L] the bits repeat with period [m]. *)
Definition rotated_so_far (m L b : Z) : Prop :=
  0 <= b < 2 ^ 32 /\ m <= L <= 32 /\
  (forall i, L <= i -> Z.testbit b i = false) /\
  (forall j, 0 <= j -> j + m < L -> Z.testbit b (j + m) = Z.testbit b j).

(** The entry of the dimming table at step [c]. *)
Definition dim (c : Z) : Z := default 0 (load _dimming c).

(** [n] moves of Breathe. *)
Definition breathe_walk (n : nat) (s : Z * bool) : Z * bool :=
  Nat.iter n breathe_next s.

(** The step of the dimming table Breathe is at [t] ticks after
    [setBreathe], the step tick [t + 1] finds: up from 0 to 15 during 16
    ticks, down from 15 to 0 during the next 16. *)
Definition breathe_step (t : nat) : Z :=
  let r := Z.of_nat (t mod 32) in
  if r <? 16 then r else 31 - r.

(** Breathe once the mode is not new, at a given step and direction. *)
Definition breathe_at (P : Platform) (st : LEDControl) (leds : list CRGB)
    (s : Z * bool) : LEDControl :=
  set_curdir (set_config (set_leds (set_newMode st false) leds) (fst s))
             (dir_code P (snd s)).

(** The strip as a tick of Breathe at step [c] leaves it. *)
Definition breathe_frame (P : Platform) (st : LEDControl) (c : Z) : list CRGB :=
  replicate (length (_leds st)) (nscale8_video P (_color st) (dim c)).

(** One call on an object: a setter with any arguments, or a tick that
    returns. *)
Inductive op_step (P : Platform) : LEDControl -> LEDControl -> Prop :=
  | step_setOneColor st c : op_step P st (setOneColor st c)
  | step_setRunFwd st c : op_step P st (setRunFwd st c)
  | step_setRunRev st c : op_step P st (setRunRev st c)
  | step_setRainbowFwd st : op_step P st (setRainbowFwd st)
  | step_setRainbowRev st : op_step P st (setRainbowRev st)
  | step_setCylon st c : op_step P st (setCylon st c)
  | step_setPattern st c b : op_step P st (setPattern st c b)
  | step_setProgress st c p : op_step P st (setProgress P st c p)
  | step_setMarquee st c b : op_step P st (setMarquee st c b)
  | step_setBreathe st c : op_step P st (setBreathe P st c)
  | step_update st st' : update P st = Some st' -> op_step P st st'.

(** The states an object can be in: built by the constructor, then driven
    by calls in any order. *)
Inductive reachable (P : Platform) : LEDControl -> Prop :=
  | reach_new n leds junk : reachable P (LEDControl_new n leds junk)
  | reach_step st st' : reachable P st -> op_step P st st' -> reachable P st'.

(** The step of the dimming table is an index of the table. *)
Definition config_in_table (st : LEDControl) : Prop :=
  0 <= _config st <= _numdims - 1.

(** ** A platform to run examples on *)

(** Mode constants numbered in the order of the case labels. *)
Definition sample_code (m : Mode) : Z :=
  match m with
  | MODE_UNDEF => 0 | MODE_OFF => 1 | MODE_ON => 2 | MODE_RUNFWD => 3
  | MODE_RUNREV => 4 | MODE_RAINBF => 5 | MODE_RAINBR => 6 | MODE_CYLON => 7
  | MODE_BITMAP => 8 | MODE_MARQUEE => 9 | MODE_BREATHE => 10
  end.

(** FastLED's [scale8_video]: a channel scaled by [scale/256] that never
    turns a lit channel off. *)
Definition scale8_video (i scale : Z) : Z :=
  Z.shiftr (i * scale) 8 + (if negb (i =? 0) && negb (scale =? 0) then 1 else 0).

(** The colour conversion is a stand-in that keeps hue, saturation and
    value as they are, which is enough to tell the pixels of a rainbow
    apart.  A too large shift count is taken modulo 32, and an [int] has
    32 bits. *)
Definition sample_platform : Platform :=
  {| code := sample_code;
     hsv2rgb := fun h s v => mkCRGB h s v;
     nscale8_video := fun c s =>
       mkCRGB (scale8_video (red c) s) (scale8_video (green c) s)
              (scale8_video (blue c) s);
     shl_wide := shl_count_mod32;
     shr_wide := shr_count_mod32;
     mul_wide := mul_wrap32 |}.

Definition Red : CRGB := mkCRGB 255 0 0.

(** ** Vocabulary of the further properties *)

(** The strip of [st'] is the strip of [st]: same pixel count, same number
    of pixels in the array. *)
Definition same_strip (st st' : LEDControl) : Prop :=
  _ledCount st' = _ledCount st /\ length (_leds st') = length (_leds st).

(** The states in which every tick is safe: the array has as many pixels
    as the object was told, at least one, and the step of the dimming
    table is an index of the table. *)
Definition well_formed (st : LEDControl) : Prop :=
  strip_ok st /\ 0 < _ledCount st /\ config_in_table st.

(** Any number of calls in a row. *)
Inductive calls (P : Platform) : LEDControl -> LEDControl -> Prop :=
  | calls_none st : calls P st st
  | calls_more st st1 st2 : op_step P st st1 -> calls P st1 st2 -> calls P st st2.

(** Where the eye of the Cylon is on [n] pixels, [t] ticks after the first
    one: up during the first [n] ticks of each round of [2 * n], down
    during the others. *)
Definition cylon_pos (n : Z) (t : nat) : Z :=
  let r := Z.of_nat t mod (2 * n) in
  if r <? n then r else 2 * n - 1 - r.

(** The Cylon [t] ticks after the first one. *)
Definition cylon_state (P : Platform) (base : LEDControl) (t : nat) : LEDControl :=
  set_curdir
    (set_leds base (one_hot (_ledCount base) (cylon_pos (_ledCount base) t)
                            (_color base)))
    (dir_code P (Z.of_nat t mod (2 * _ledCount base) <? _ledCount base)).

(** FastLED's named colours used by the sketches. *)
Definition Blue : CRGB := mkCRGB 0 0 255.
Definition Purple : CRGB := mkCRGB 128 0 128.
Definition Yellow : CRGB := mkCRGB 255 255 0.
Definition Orange : CRGB := mkCRGB 255 165 0.

(** [examples/sampler/sampler.ino], [setup]: a progress bar from 0 to 100
    percent in steps of 5, one tick each.  [FastLED.show] and [delay] do
    not touch the object or the array. *)
Definition sampler_setup (P : Platform) (st : LEDControl) : option LEDControl :=
  for_loop 21 0 5 (fun i st => update P (setProgress P st Blue i)) st.

(** The [switch] of [loop] in [sampler.ino]. *)
Definition sampler_pattern (P : Platform) (st : LEDControl) (k : Z) : LEDControl :=
  match k with
  | 0 => setRunFwd st Purple
  | 1 => setRunRev st Red
  | 2 => setRainbowRev st
  | 3 => setCylon st Red
  | 4 => setMarquee st Yellow 52428 (* 0b1100110011001100 *)
  | 5 => setOneColor st Purple
  | 6 => setBreathe P st Orange
  | _ => setOneColor st Orange
  end.

(** One round of [loop] in [sampler.ino]; [counter] is an [unsigned int]
    of [uint_bits] bits. *)
Definition sampler_loop (P : Platform) (uint_bits : Z) (s : Z * LEDControl)
    : option (Z * LEDControl) :=
  let '(counter, st) := s in
  let st := if counter mod 64 =? 0
            then sampler_pattern P st ((counter / 64) mod 7) else st in
  let counter := (counter + 1) mod 2 ^ uint_bits in
  st' ← update P st; Some (counter, st').

Fixpoint sampler_run (P : Platform) (uint_bits : Z) (n : nat) (s : Z * LEDControl)
    : option (Z * LEDControl) :=
  match n with
  | O => Some s
  | S n' => s' ← sampler_loop P uint_bits s; sampler_run P uint_bits n' s'
  end.

(** * Lemmas *)

(** ** Colours *)

Lemma CRGB_eqb_eq a b : CRGB_eqb a b = true <-> a = b.
Proof.
  destruct a as [r1 g1 b1], b as [r2 g2 b2]. unfold CRGB_eqb. simpl.
  rewrite !andb_true_iff, !Z.eqb_eq. split.
  - intros [[-> ->] ->]. reflexivity.
  - intros [= -> -> ->]. auto.
Qed.

Lemma CRGB_eqb_refl a : CRGB_eqb a a = true.
Proof. apply CRGB_eqb_eq. reflexivity. Qed.

Lemma CRGB_eqb_neq a b : a <> b -> CRGB_eqb a b = false.
Proof.
  intros H. destruct (CRGB_eqb a b) eqn:E; [|reflexivity].
  apply CRGB_eqb_eq in E. contradiction.
Qed.

(** ** The array *)

Lemma load_nat {A} (a : list A) (k : nat) : load a (Z.of_nat k) = a !! k.
Proof.
  unfold load. rewrite Nat2Z.id.
  destruct (0 <=? Z.of_nat k) eqn:E; [reflexivity|]. apply Z.leb_gt in E. lia.
Qed.

Lemma store_nat {A} (a : list A) (k : nat) (x : A) :
  (k < length a)%nat -> store a (Z.of_nat k) x = Some (<[k := x]> a).
Proof.
  intros H. unfold store. rewrite Nat2Z.id.
  destruct (0 <=? Z.of_nat k) eqn:E1; [|apply Z.leb_gt in E1; lia].
  destruct (Z.of_nat k <? Z.of_nat (length a)) eqn:E2;
    [reflexivity | apply Z.ltb_ge in E2; lia].
Qed.

Lemma lookup_in_range {A} (a : list A) (k : nat) :
  (k < length a)%nat -> exists x, a !! k = Some x.
Proof. intros H. apply lookup_lt_is_Some in H. destruct H as [x Hx]. eauto. Qed.

(** ** Loops *)

(** The proof rule of [for_loop]: an invariant indexed by the number of
    rounds done, which every round re-establishes without failing. *)
Lemma for_loop_rule {A} (Inv : nat -> A -> Prop) n i step body (a : A) :
  Inv 0%nat a ->
  (forall k x, (k < n)%nat -> Inv k x ->
     exists x', body (i + Z.of_nat k * step) x = Some x' /\ Inv (S k) x') ->
  exists a', for_loop n i step body a = Some a' /\ Inv n a'.
Proof.
  revert Inv i a. induction n as [|n IH]; intros Inv i a H0 Hstep.
  - exists a. split; [reflexivity | assumption].
  - destruct (Hstep 0%nat a) as (a1 & Hb & H1); [lia | assumption |].
    replace (i + Z.of_nat 0 * step) with i in Hb by lia.
    destruct (IH (fun k => Inv (S k)) (i + step) a1 H1) as (a' & Hl & Hn).
    + intros k x Hk Hx.
      destruct (Hstep (S k) x) as (x' & Hb' & Hx'); [lia | assumption |].
      exists x'. split; [|assumption].
      rewrite <- Hb'. f_equal. lia.
    + exists a'. split; [|assumption]. simpl. rewrite Hb. simpl. exact Hl.
Qed.

Lemma fill_solid_spec leds n c :
  0 <= n <= Z.of_nat (length leds) ->
  fill_solid leds n c
  = Some (replicate (Z.to_nat n) c ++ drop (Z.to_nat n) leds).
Proof.
  intros Hn. unfold fill_solid.
  destruct (for_loop_rule
              (fun k l => l = replicate k c ++ drop k leds)
              (Z.to_nat n) 0 1 (fun i l => store l i c) leds)
    as (l' & Hl & ->); [reflexivity | | exact Hl].
  intros k x Hk ->.
  replace (0 + Z.of_nat k * 1) with (Z.of_nat k) by lia.
  rewrite store_nat by (rewrite length_app, length_replicate, length_drop; lia).
  eexists. split; [reflexivity|].
  rewrite insert_app_r_alt by (rewrite length_replicate; lia).
  rewrite length_replicate, Nat.sub_diag.
  destruct (lookup_in_range leds k) as [y Hy]; [lia|].
  rewrite (drop_S _ _ _ Hy). cbn [list_insert insert].
  rewrite replicate_S_end, <- app_assoc. reflexivity.
Qed.

Lemma fill_solid_all leds n c :
  n = Z.of_nat (length leds) ->
  fill_solid leds n c = Some (replicate (length leds) c).
Proof.
  intros ->. rewrite fill_solid_spec by lia.
  rewrite Nat2Z.id, drop_all, app_nil_r. reflexivity.
Qed.

(** ** Fields that an operation leaves alone *)

Lemma shiftFwd_fields st st' :
  shiftFwd st = Some st' -> exists l, st' = set_leds st l.
Proof. unfold shiftFwd. intros H. simplify_option_eq. eauto. Qed.

Lemma shiftRev_fields st st' :
  shiftRev st = Some st' -> exists l, st' = set_leds st l.
Proof. unfold shiftRev. intros H. simplify_option_eq. eauto. Qed.

Lemma load_dimming_range c x : load _dimming c = Some x -> 0 <= c <= _numdims - 1.
Proof.
  unfold load. destruct (0 <=? c) eqn:E; [|discriminate].
  apply Z.leb_le in E. intros H. apply lookup_lt_Some in H.
  simpl in H. unfold _numdims. lia.
Qed.

(** Splits a successful run of [update] into the branches it can have
    taken. *)
Ltac split_update H :=
  repeat first
    [ progress simplify_option_eq
    | match type of H with
      | context [if ?b then _ else _] => destruct b eqn:?
      end
    | match goal with
      | H' : shiftFwd _ = Some _ |- _ => apply shiftFwd_fields in H' as [? ->]
      | H' : shiftRev _ = Some _ |- _ => apply shiftRev_fields in H' as [? ->]
      | H' : (if ?b then _ else _) = Some _ |- _ => destruct b eqn:?
      end ].

Section Invariants.

Variable P : Platform.

(** A tick outside of Breathe does not touch the step of the dimming
    table. *)
Lemma update_config_other st st' :
  update P st = Some st' -> _mode st <> MODE_BREATHE -> _config st' = _config st.
Proof.
  unfold update. intros H Hm.
  destruct (_mode st); try congruence; split_update H; reflexivity.
Qed.

(** A tick of Breathe leaves the step inside of the table. *)
Lemma update_config_breathe st st' :
  update P st = Some st' -> _mode st = MODE_BREATHE ->
  0 <= _config st' <= _numdims - 1.
Proof.
  unfold update. intros H Hm. rewrite Hm in H.
  apply bind_Some in H as (scale & Hs & H).
  apply load_dimming_range in Hs.
  apply bind_Some in H as (leds & _ & H).
  destruct (_newMode st); simpl in *;
    repeat match type of H with
    | context [if ?b then _ else _] => destruct b eqn:?
    end;
    injection H as <-; simpl; unfold _numdims in *; lia.
Qed.

(** C9: in every state reachable from construction by setter calls and
    ticks, the step of the dimming table used by Breathe lies between 0 and
    [_numdims - 1] = 15, and every single call keeps it there. *)
Theorem dimStep_in_table :
  (forall st, reachable P st -> config_in_table st) /\
  (forall st st', config_in_table st -> op_step P st st' -> config_in_table st').
Proof.
  assert (Hstep : forall st st',
            config_in_table st -> op_step P st st' -> config_in_table st').
  { unfold config_in_table. intros st st' Hin Hop.
    destruct Hop as [| | | | | | | | | |st st' Hu]; simpl;
      try assumption; try (unfold _numdims; lia).
    destruct (_mode st) eqn:Hm;
      try (erewrite update_config_other by (eassumption || congruence);
           assumption).
    eapply update_config_breathe; eassumption. }
  split; [|exact Hstep].
  induction 1 as [n leds junk | st st' _ IH Hop].
  - unfold config_in_table, _numdims. simpl. lia.
  - eapply Hstep; eassumption.
Qed.

End Invariants.

(** ** Breathe *)

Lemma load_dimming c : 0 <= c <= _numdims - 1 -> load _dimming c = Some (dim c).
Proof.
  intros Hc. unfold dim.
  destruct (load _dimming c) as [x|] eqn:E; [reflexivity|].
  unfold load in E. destruct (0 <=? c) eqn:E0; [|apply Z.leb_gt in E0; lia].
  apply lookup_ge_None in E. simpl in E. unfold _numdims in Hc. lia.
Qed.

Lemma breathe_next_range s :
  0 <= fst s <= _numdims - 1 -> 0 <= fst (breathe_next s) <= _numdims - 1.
Proof.
  destruct s as [c fwd]. unfold breathe_next. simpl.
  destruct fwd;
    match goal with |- context [?a =? ?b] => destruct (Z.eqb_spec a b) end;
    simpl; unfold _numdims in *; lia.
Qed.

Lemma breathe_walk_range n s :
  0 <= fst s <= _numdims - 1 -> 0 <= fst (breathe_walk n s) <= _numdims - 1.
Proof.
  intros Hs. induction n as [|n IH]; [exact Hs|].
  unfold breathe_walk in *. simpl. apply breathe_next_range, IH.
Qed.

Lemma breathe_walk_period n : breathe_walk (n + 32) (0, true) = breathe_walk n (0, true).
Proof. unfold breathe_walk. rewrite Nat.iter_add. reflexivity. Qed.

Lemma breathe_walk_mod t :
  breathe_walk t (0, true) = breathe_walk (t mod 32) (0, true).
Proof.
  rewrite (Nat.div_mod_eq t 32) at 1.
  induction (t / 32)%nat as [|q IH].
  - f_equal; lia.
  - replace (32 * S q + t mod 32)%nat with (32 * q + t mod 32 + 32)%nat by lia.
    rewrite breathe_walk_period. exact IH.
Qed.

(** Where Breathe is after [t] moves: the step goes up during the first 16
    moves of a round of 32 and down during the others. *)
Lemma breathe_walk_closed t :
  breathe_walk t (0, true) = (breathe_step t, (t mod 32 <? 16)%nat).
Proof.
  rewrite breathe_walk_mod. unfold breathe_step.
  assert (H : (t mod 32 < 32)%nat) by (apply Nat.mod_upper_bound; lia).
  set (k := (t mod 32)%nat) in *. clearbody k.
  do 32 (destruct k as [|k]; [reflexivity|]). lia.
Qed.

Lemma succ_mod_32 t :
  (S t mod 32 = if t mod 32 =? 31 then 0 else S (t mod 32))%nat.
Proof.
  assert (H : (t mod 32 < 32)%nat) by (apply Nat.mod_upper_bound; lia).
  rewrite (Nat.div_mod_eq t 32) at 1.
  destruct (Nat.eqb_spec (t mod 32) 31) as [E|E].
  - rewrite E. replace (S (32 * (t / 32) + 31))%nat with (0 + (S (t / 32)) * 32)%nat by lia.
    rewrite Nat.Div0.mod_add. reflexivity.
  - replace (S (32 * (t / 32) + t mod 32))%nat
      with (S (t mod 32) + (t / 32) * 32)%nat by lia.
    rewrite Nat.Div0.mod_add. apply Nat.mod_small. lia.
Qed.

Lemma mod_16_of_32 t : (t mod 16 = (t mod 32) mod 16)%nat.
Proof.
  rewrite (Nat.div_mod_eq t 32) at 1.
  replace (32 * (t / 32) + t mod 32)%nat
    with (t mod 32 + (2 * (t / 32)) * 16)%nat by lia.
  apply Nat.Div0.mod_add.
Qed.

(** The step stands still at the two ends of the table and nowhere else. *)
Lemma breathe_step_hold t :
  (breathe_step (S t) = breathe_step t <-> (t mod 16 = 15)%nat) /\
  ((t mod 32 = 15)%nat -> breathe_step t = _numdims - 1) /\
  ((t mod 32 = 31)%nat -> breathe_step t = 0) /\
  (breathe_step (S t) = breathe_step t \/
   breathe_step (S t) = breathe_step t + 1 \/
   breathe_step (S t) = breathe_step t - 1).
Proof.
  unfold breathe_step, _numdims. rewrite succ_mod_32, (mod_16_of_32 t).
  assert (H : (t mod 32 < 32)%nat) by (apply Nat.mod_upper_bound; lia).
  set (k := (t mod 32)%nat) in *. clearbody k.
  do 32 (destruct k as [|k];
         [vm_compute; repeat split; (discriminate || tauto || lia || auto)|]).
  lia.
Qed.

(** No two of 32 moves in a row lead to the same place. *)
Lemma breathe_walk_inj t p :
  (0 < p < 32)%nat ->
  breathe_walk (t + p) (0, true) <> breathe_walk t (0, true).
Proof.
  intros Hp. rewrite !breathe_walk_closed. unfold breathe_step.
  assert (Ht : (t mod 32 < 32)%nat) by (apply Nat.mod_upper_bound; lia).
  assert (Htp : ((t + p) mod 32 < 32)%nat) by (apply Nat.mod_upper_bound; lia).
  assert (Hne : ((t + p) mod 32 <> t mod 32)%nat).
  { intros E.
    pose proof (Nat.div_mod_eq t 32) as E1.
    pose proof (Nat.div_mod_eq (t + p) 32) as E2.
    rewrite E in E2. lia. }
  cbv zeta.
  set (a := ((t + p) mod 32)%nat) in *. set (b := (t mod 32)%nat) in *.
  clearbody a b. intros E. injection E as E1 E2.
  destruct (Nat.ltb_spec a 16), (Nat.ltb_spec b 16); try discriminate E2;
    destruct (Z.ltb_spec (Z.of_nat a) 16), (Z.ltb_spec (Z.of_nat b) 16); lia.
Qed.

Lemma breathe_walk_step t : fst (breathe_walk t (0, true)) = breathe_step t.
Proof. rewrite breathe_walk_closed. reflexivity. Qed.

Lemma breathe_step_range t : 0 <= breathe_step t <= 15.
Proof.
  unfold breathe_step.
  assert (H : (t mod 32 < 32)%nat) by (apply Nat.mod_upper_bound; lia).
  destruct (Z.ltb_spec (Z.of_nat (t mod 32)) 16); lia.
Qed.

Section Breathe.

Variable P : Platform.
Hypothesis codes_differ : code P MODE_RUNFWD <> code P MODE_RUNREV.

Lemma dir_code_fwd fwd : (dir_code P fwd =? code P MODE_RUNFWD) = fwd.
Proof.
  destruct fwd; simpl; [apply Z.eqb_refl|].
  apply Z.eqb_neq. congruence.
Qed.

(** One tick of Breathe once the mode is not new any more. *)
Lemma update_breathe_at st leds s :
  _mode st = MODE_BREATHE -> _ledCount st = Z.of_nat (length leds) ->
  length leds = length (_leds st) ->
  0 <= fst s <= _numdims - 1 ->
  update P (breathe_at P st leds s)
  = Some (breathe_at P st (breathe_frame P st (fst s)) (breathe_next s)).
Proof.
  intros Hm Hn Hl Hs. destruct s as [c fwd]. simpl in Hs.
  unfold update, breathe_at. simpl. rewrite Hm. simpl.
  rewrite (load_dimming c Hs). simpl.
  rewrite fill_solid_all by exact Hn. simpl.
  rewrite dir_code_fwd. unfold breathe_frame. rewrite <- Hl.
  destruct fwd; simpl.
  - destruct (Z.eqb_spec c (_numdims - 1)) as [->|]; reflexivity.
  - destruct (Z.eqb_spec c 0) as [->|]; reflexivity.
Qed.

(** The first tick after [setBreathe]. *)
Lemma update_setBreathe st color :
  strip_ok st ->
  update P (setBreathe P st color)
  = Some (breathe_at P (setBreathe P st color)
            (breathe_frame P (setBreathe P st color) 0) (1, true)).
Proof.
  intros Hn. unfold update, setBreathe, breathe_at. simpl.
  rewrite fill_solid_all by exact Hn. simpl.
  rewrite Z.eqb_refl. reflexivity.
Qed.

Lemma ticks_breathe_at n st leds s :
  _mode st = MODE_BREATHE -> _ledCount st = Z.of_nat (length leds) ->
  length leds = length (_leds st) ->
  0 <= fst s <= _numdims - 1 ->
  ticks P (S n) (breathe_at P st leds s)
  = Some (breathe_at P st (breathe_frame P st (fst (breathe_walk n s)))
            (breathe_walk (S n) s)).
Proof.
  intros Hm Hn Hl. revert leds s Hn Hl.
  induction n as [|n IH]; intros leds s Hn Hl Hs.
  - simpl. rewrite update_breathe_at by assumption. reflexivity.
  - change (ticks P (S (S n)) ?x) with (st' ← update P x; ticks P (S n) st').
    rewrite update_breathe_at by assumption. simpl option_bind.
    cbn [mbind option_bind].
    rewrite IH.
    + unfold breathe_walk. rewrite <- !Nat.iter_succ_r. reflexivity.
    + unfold breathe_frame. rewrite length_replicate. lia.
    + unfold breathe_frame. rewrite length_replicate. reflexivity.
    + apply breathe_next_range, Hs.
Qed.

(** The state [n + 1] ticks after [setBreathe]. *)
Lemma ticks_setBreathe n st color :
  strip_ok st ->
  ticks P (S n) (setBreathe P st color)
  = Some (breathe_at P (setBreathe P st color)
            (breathe_frame P (setBreathe P st color)
               (fst (breathe_walk n (0, true))))
            (breathe_walk (S n) (0, true))).
Proof.
  intros Hn. destruct n as [|n].
  - simpl. rewrite update_setBreathe by assumption. reflexivity.
  - change (ticks P (S (S n)) ?x) with (st' ← update P x; ticks P (S n) st').
    rewrite update_setBreathe by assumption. cbn [mbind option_bind].
    rewrite ticks_breathe_at.
    + change (1, true) with (breathe_next (0, true)).
      unfold breathe_walk. rewrite <- !Nat.iter_succ_r. reflexivity.
    + reflexivity.
    + unfold breathe_frame. rewrite length_replicate. exact Hn.
    + unfold breathe_frame. rewrite length_replicate. reflexivity.
    + simpl. unfold _numdims. lia.
Qed.

Lemma ticks_S_r n st : ticks P (S n) st = st' ← ticks P n st; update P st'.
Proof.
  revert st. induction n as [|n IH]; intros st.
  - cbn [ticks mbind option_bind]. destruct (update P st); reflexivity.
  - change (ticks P (S (S n)) st) with (st' ← update P st; ticks P (S n) st').
    change (ticks P (S n) st) with (st' ← update P st; ticks P n st').
    destruct (update P st) as [s|]; [|reflexivity].
    cbn [mbind option_bind]. apply IH.
Qed.

Lemma dir_code_inj a b : dir_code P a = dir_code P b -> a = b.
Proof. destruct a, b; simpl; congruence. Qed.

(** The state [t] ticks after [setBreathe], the first tick included. *)
Lemma breathe_state t st color :
  strip_ok st ->
  exists s, ticks P t (setBreathe P st color) = Some s /\
            _config s = breathe_step t /\
            _curdir s = dir_code P (t mod 32 <? 16)%nat.
Proof.
  intros Hn. destruct t as [|n].
  - eexists. split; [reflexivity|]. split; reflexivity.
  - rewrite (ticks_setBreathe n st color Hn).
    eexists. split; [reflexivity|].
    cbn [_config _curdir breathe_at set_curdir set_config].
    rewrite breathe_walk_closed. split; reflexivity.
Qed.

(** C1 (as the code has it): Breathe holds one extra tick at each end of
    the dimming table, so its period is [2 * _numdims] = 32 ticks.  From
    the state set by [setBreathe] (step 0, direction forward), after
    exactly 32 ticks the step and the direction are back at their start
    values and the colour written by that tick is the colour written by
    the first tick; from the first tick on, the whole state repeats every
    32 ticks, and after no smaller number of ticks.  Tick [t + 1] writes
    the table entry at the step it finds, which is [t mod 32] on the way
    up and [31 - t mod 32] on the way down, and then moves the step by
    one, except at the two ends: the tick that finds step 15 going up, and
    the tick that finds step 0 going down, leave the step where it is, so
    the last and the first entry of the table are each written by two
    ticks in a row. *)
Theorem breathe_period_32 st color :
  strip_ok st ->
  let s0 := setBreathe P st color in
  (exists s1 s32,
      update P s0 = Some s1 /\ ticks P 32 s0 = Some s32 /\
      _config s32 = _config s0 /\ _curdir s32 = _curdir s0 /\
      _leds s32 = _leds s1) /\
  (forall t, is_Some (ticks P (S t) s0) /\
             ticks P (S t + 32) s0 = ticks P (S t) s0) /\
  (forall t p, (0 < p < 32)%nat -> ticks P (S t + p) s0 <> ticks P (S t) s0) /\
  (forall t, exists s s',
      ticks P t s0 = Some s /\ update P s = Some s' /\
      _config s = breathe_step t /\
      _leds s' = breathe_frame P s0 (_config s) /\
      (_config s' = _config s <-> (t mod 16 = 15)%nat) /\
      ((t mod 32 = 15)%nat -> _config s = _numdims - 1) /\
      ((t mod 32 = 31)%nat -> _config s = 0) /\
      (_config s' = _config s \/ _config s' = _config s + 1 \/
       _config s' = _config s - 1)).
Proof.
  intros Hn s0. subst s0. split; [|split; [|split]].
  - eexists _, _. split; [apply update_setBreathe; exact Hn|].
    split; [apply (ticks_setBreathe 31); exact Hn|].
    repeat split.
  - intros t. split.
    + rewrite ticks_setBreathe by exact Hn. eauto.
    + change (S t + 32)%nat with (S (t + 32)).
      rewrite !ticks_setBreathe by exact Hn.
      change (S (t + 32)) with (S t + 32)%nat.
      rewrite !breathe_walk_period. reflexivity.
  - intros t p Hp E.
    destruct (breathe_state (S t + p) st color Hn) as (a & Ha & Hca & Hda).
    destruct (breathe_state (S t) st color Hn) as (b & Hb & Hcb & Hdb).
    rewrite Ha, Hb in E. injection E as ->.
    rewrite Hcb in Hca. rewrite Hdb in Hda. apply dir_code_inj in Hda.
    apply (breathe_walk_inj (S t) p Hp).
    rewrite !breathe_walk_closed. congruence.
  - intros t.
    destruct (breathe_state t st color Hn) as (s & Hs & Hc & Hd).
    destruct (breathe_state (S t) st color Hn) as (s' & Hs' & Hc' & Hd').
    assert (Hu : update P s = Some s').
    { rewrite ticks_S_r, Hs in Hs'. exact Hs'. }
    exists s, s'. split; [exact Hs|]. split; [exact Hu|]. split; [exact Hc|].
    destruct (breathe_step_hold t) as (H1 & H2 & H3 & H4).
    rewrite Hc', Hc. split; [|split; [exact H1|split; [exact H2|split; [exact H3|exact H4]]]].
    rewrite (ticks_setBreathe t st color Hn) in Hs'.
    injection Hs' as <-.
    cbn [_leds breathe_at set_curdir set_config set_leds set_newMode].
    rewrite breathe_walk_closed. reflexivity.
Qed.

End Breathe.

(** ** Lists rebuilt from the left *)

Lemma take_drop_insert {A} (a b : list A) (k : nat) (x : A) :
  a !! k = Some x -> (k < length b)%nat ->
  <[k := x]> (take k a ++ drop k b) = take (S k) a ++ drop (S k) b.
Proof.
  intros Ha Hb. pose proof (lookup_lt_Some _ _ _ Ha) as Hk.
  rewrite insert_app_r_alt by (rewrite length_take; lia).
  rewrite length_take, Nat.min_l, Nat.sub_diag by lia.
  destruct (lookup_in_range b k Hb) as [y Hy].
  rewrite (drop_S _ _ _ Hy). cbn [list_insert insert].
  rewrite (take_S_r _ _ _ Ha), <- app_assoc. reflexivity.
Qed.

Lemma take_drop_same {A} (a b : list A) (k : nat) (x : A) :
  a !! k = Some x -> b !! k = Some x ->
  take k a ++ drop k b = take (S k) a ++ drop (S k) b.
Proof.
  intros Ha Hb.
  rewrite (drop_S _ _ _ Hb), (take_S_r _ _ _ Ha), <- app_assoc. reflexivity.
Qed.

(** ** Bits *)

Lemma to_ulong_small x : 0 <= x < 2 ^ 32 -> to_ulong x = x.
Proof. intros H. unfold to_ulong, ULONG_BITS. apply Z.mod_small. exact H. Qed.

Lemma to_ulong_range x : 0 <= to_ulong x < 2 ^ 32.
Proof. unfold to_ulong, ULONG_BITS. apply Z.mod_pos_bound. lia. Qed.

Lemma shl_ul_in_range P x s :
  0 <= s < 32 -> shl_ul P x s = to_ulong (Z.shiftl x s).
Proof.
  intros H. unfold shl_ul, shift_in_range, ULONG_BITS.
  destruct (0 <=? s) eqn:E1; [|apply Z.leb_gt in E1; lia].
  destruct (s <? 32) eqn:E2; [|apply Z.ltb_ge in E2; lia]. reflexivity.
Qed.

Lemma shr_ul_in_range P x s :
  0 <= s < 32 -> shr_ul P x s = to_ulong (Z.shiftr x s).
Proof.
  intros H. unfold shr_ul, shift_in_range, ULONG_BITS.
  destruct (0 <=? s) eqn:E1; [|apply Z.leb_gt in E1; lia].
  destruct (s <? 32) eqn:E2; [|apply Z.ltb_ge in E2; lia]. reflexivity.
Qed.

Lemma pow2_lt_32 i : 0 <= i < 32 -> 0 <= 2 ^ i < 2 ^ 32.
Proof.
  intros H. split; [apply Z.pow_nonneg; lia|].
  apply Z.pow_lt_mono_r; lia.
Qed.

Lemma land_pow2 b i :
  0 <= i -> Z.land b (2 ^ i) = if Z.testbit b i then 2 ^ i else 0.
Proof.
  intros Hi. apply Z.bits_inj'. intros n Hn.
  rewrite Z.land_spec, Z.pow2_bits_eqb by exact Hi.
  destruct (Z.eqb_spec i n) as [->|Hne].
  - destruct (Z.testbit b n); simpl.
    + rewrite Z.pow2_bits_true by exact Hn. reflexivity.
    + rewrite Z.bits_0. reflexivity.
  - rewrite andb_false_r.
    destruct (Z.testbit b i).
    + rewrite Z.pow2_bits_false by lia. reflexivity.
    + rewrite Z.bits_0. reflexivity.
Qed.

(** The test [(_bitmap & (mask<<i)) != 0] reads bit [i]. *)
Lemma bit_set_testbit P b i : 0 <= i < 32 -> bit_set P b i = Z.testbit b i.
Proof.
  intros Hi. unfold bit_set.
  rewrite shl_ul_in_range, Z.shiftl_1_l, to_ulong_small by (auto using pow2_lt_32).
  rewrite land_pow2 by lia.
  destruct (Z.testbit b i); simpl.
  - destruct (Z.eqb_spec (2 ^ i) 0) as [E|]; [|reflexivity].
    pose proof (Z.pow_pos_nonneg 2 i). lia.
  - reflexivity.
Qed.

(** ** Painting from a bitmap *)

Lemma length_painted n m b c : length (painted n m b c) = Z.to_nat n.
Proof. unfold painted. rewrite length_fmap, length_seqZ. reflexivity. Qed.

Lemma lookup_painted n m b c (j : nat) :
  Z.of_nat j < n ->
  painted n m b c !! j
  = Some (if (Z.of_nat j <? m) && Z.testbit b (Z.of_nat j) then c else Black).
Proof.
  intros Hj. unfold painted. rewrite list_lookup_fmap, lookup_seqZ_lt by lia.
  reflexivity.
Qed.

Lemma lookup_replicate_lt {A} (n j : nat) (x : A) :
  (j < n)%nat -> replicate n x !! j = Some x.
Proof. apply lookup_replicate_2. Qed.

(** Two lists of one length with the same pixel at every index. *)
Lemma list_eq_pointwise {A} (l1 l2 : list A) :
  length l1 = length l2 ->
  (forall j, (j < length l1)%nat -> l1 !! j = l2 !! j) -> l1 = l2.
Proof.
  intros Hl H. apply list_eq. intros j.
  destruct (decide (j < length l1)%nat) as [Hj|Hj]; [auto|].
  rewrite (proj2 (lookup_ge_None l1 j)), (proj2 (lookup_ge_None l2 j)) by lia.
  reflexivity.
Qed.

Section Painting.

Variable P : Platform.

(** The loop of Pattern, run on a black strip. *)
Lemma paint_set_bits_spec st m (n : nat) :
  0 <= m <= Z.of_nat n -> m <= 32 ->
  paint_set_bits P st m (replicate n Black)
  = Some (painted (Z.of_nat n) m (_bitmap st) (_color st)).
Proof.
  intros Hm Hm32. unfold paint_set_bits.
  set (A := painted (Z.of_nat n) m (_bitmap st) (_color st)).
  destruct (for_loop_rule
              (fun k l => l = take k A ++ drop k (replicate n Black))
              (Z.to_nat m) 0 1
              (fun i l => if bit_set P (_bitmap st) i
                          then store l i (_color st) else Some l)
              (replicate n Black))
    as (l' & Hl & ->); [reflexivity | |].
  - intros k x Hk ->.
    replace (0 + Z.of_nat k * 1) with (Z.of_nat k) by lia.
    rewrite bit_set_testbit by lia.
    assert (HA : A !! k = Some (if Z.testbit (_bitmap st) (Z.of_nat k)
                                then _color st else Black)).
    { unfold A. rewrite lookup_painted by lia.
      destruct (Z.ltb_spec (Z.of_nat k) m); [reflexivity | lia]. }
    destruct (Z.testbit (_bitmap st) (Z.of_nat k)).
    + rewrite store_nat
        by (rewrite length_app, length_take, length_drop, length_replicate;
            unfold A; rewrite length_painted; lia).
      eexists. split; [reflexivity|].
      apply take_drop_insert; [exact HA | rewrite length_replicate; lia].
    + eexists. split; [reflexivity|].
      apply (take_drop_same _ _ _ Black); [exact HA|].
      apply lookup_replicate_lt. lia.
  - rewrite Hl. f_equal.
    apply list_eq_pointwise.
    + rewrite length_app, length_take, length_drop, length_replicate.
      unfold A. rewrite length_painted. lia.
    + intros j Hj.
      assert (Hjn : (j < n)%nat).
      { rewrite length_app, length_take, length_drop, length_replicate in Hj.
        unfold A in Hj. rewrite length_painted in Hj. lia. }
      destruct (decide (j < Z.to_nat m)%nat) as [Hlt|Hge].
      * rewrite lookup_app_l by (rewrite length_take; unfold A;
                                 rewrite length_painted; lia).
        apply lookup_take_lt. lia.
      * rewrite lookup_app_r by (rewrite length_take; lia).
        rewrite length_take. unfold A at 1. rewrite length_painted.
        rewrite lookup_drop.
        replace (Z.to_nat m + (j - Z.to_nat m `min` Z.to_nat (Z.of_nat n)))%nat
          with j by lia.
        rewrite lookup_replicate_lt by lia.
        unfold A. rewrite lookup_painted by lia.
        destruct (Z.ltb_spec (Z.of_nat j) m); [lia | reflexivity].
Qed.

(** The loop of the later ticks of Marquee, run on a strip that is black
    from pixel [m] on. *)
Lemma paint_all_bits_spec st m b0 c0 (n : nat) :
  0 <= m <= Z.of_nat n -> m <= 32 ->
  paint_all_bits P st m (painted (Z.of_nat n) m b0 c0)
  = Some (painted (Z.of_nat n) m (_bitmap st) (_color st)).
Proof.
  intros Hm Hm32. unfold paint_all_bits.
  set (A := painted (Z.of_nat n) m (_bitmap st) (_color st)).
  set (B := painted (Z.of_nat n) m b0 c0).
  assert (HlA : length A = n) by (unfold A; rewrite length_painted; lia).
  assert (HlB : length B = n) by (unfold B; rewrite length_painted; lia).
  destruct (for_loop_rule
              (fun k l => l = take k A ++ drop k B)
              (Z.to_nat m) 0 1
              (fun i l => if bit_set P (_bitmap st) i
                          then store l i (_color st) else store l i Black)
              B)
    as (l' & Hl & ->); [reflexivity | |].
  - intros k x Hk ->.
    replace (0 + Z.of_nat k * 1) with (Z.of_nat k) by lia.
    rewrite bit_set_testbit by lia.
    assert (HA : A !! k = Some (if Z.testbit (_bitmap st) (Z.of_nat k)
                                then _color st else Black)).
    { unfold A. rewrite lookup_painted by lia.
      destruct (Z.ltb_spec (Z.of_nat k) m); [reflexivity | lia]. }
    destruct (Z.testbit (_bitmap st) (Z.of_nat k));
      (rewrite store_nat
         by (rewrite length_app, length_take, length_drop; lia);
       eexists; split; [reflexivity|];
       apply take_drop_insert; [exact HA | lia]).
  - rewrite Hl. f_equal.
    apply list_eq_pointwise.
    + rewrite length_app, length_take, length_drop. lia.
    + intros j Hj.
      assert (Hjn : (j < n)%nat).
      { rewrite length_app, length_take, length_drop in Hj. lia. }
      destruct (decide (j < Z.to_nat m)%nat) as [Hlt|Hge].
      * rewrite lookup_app_l by (rewrite length_take; lia).
        apply lookup_take_lt. lia.
      * rewrite lookup_app_r by (rewrite length_take; lia).
        rewrite length_take, HlA, lookup_drop.
        replace (Z.to_nat m + (j - Z.to_nat m `min` n))%nat with j by lia.
        unfold A, B. rewrite !lookup_painted by lia.
        destruct (Z.ltb_spec (Z.of_nat j) m); [lia | reflexivity].
Qed.

End Painting.

(** ** Bars *)

Lemma lookup_progress_bar n lit c (j : nat) :
  0 <= lit <= n -> Z.of_nat j < n ->
  progress_bar n lit c !! j = Some (if Z.of_nat j <? lit then c else Black).
Proof.
  intros Hl Hj. unfold progress_bar.
  destruct (Z.ltb_spec (Z.of_nat j) lit).
  - rewrite lookup_app_l by (rewrite length_replicate; lia).
    apply lookup_replicate_lt. lia.
  - rewrite lookup_app_r by (rewrite length_replicate; lia).
    apply lookup_replicate_lt. rewrite length_replicate. lia.
Qed.

Lemma length_progress_bar n lit c :
  0 <= lit <= n -> length (progress_bar n lit c) = Z.to_nat n.
Proof.
  intros H. unfold progress_bar. rewrite length_app, !length_replicate. lia.
Qed.

(** A bitmap of [lit] low bits paints a bar of [lit] pixels. *)
Lemma painted_ones n lit c :
  0 <= lit <= n -> lit < 32 ->
  painted n (Z.min n 32) (2 ^ lit - 1) c = progress_bar n lit c.
Proof.
  intros Hl H32. apply list_eq_pointwise.
  - rewrite length_painted, length_progress_bar by lia. reflexivity.
  - intros j Hj. rewrite length_painted in Hj.
    rewrite lookup_painted, lookup_progress_bar by lia. f_equal.
    replace (2 ^ lit - 1) with (Z.ones lit) by (rewrite Z.ones_equiv; lia).
    rewrite Z.testbit_ones_nonneg by lia.
    destruct (Z.ltb_spec (Z.of_nat j) lit);
      destruct (Z.ltb_spec (Z.of_nat j) (Z.min n 32)); simpl; try reflexivity; lia.
Qed.

Lemma painted_zero n m c : 0 <= n -> painted n m 0 c = replicate (Z.to_nat n) Black.
Proof.
  intros Hn. apply list_eq_pointwise.
  - rewrite length_painted, length_replicate. reflexivity.
  - intros j Hj. rewrite length_painted in Hj.
    rewrite lookup_painted, lookup_replicate_lt, Z.bits_0, andb_false_r by lia.
    reflexivity.
Qed.

Section Static.

Variable P : Platform.

(** The first tick of the two bitmap modes. *)
Lemma update_bitmap_new st :
  strip_ok st -> _newMode st = true ->
  _mode st = MODE_BITMAP \/ _mode st = MODE_MARQUEE ->
  update P st
  = Some (set_newMode
            (set_leds st (painted (_ledCount st) (Z.min (_ledCount st) 32)
                                  (_bitmap st) (_color st)))
            false).
Proof.
  intros Hn Hnew Hm. unfold update.
  assert (Hp : paint_set_bits P st (Z.min (_ledCount st) 32)
                 (replicate (length (_leds st)) Black)
               = Some (painted (_ledCount st) (Z.min (_ledCount st) 32)
                               (_bitmap st) (_color st))).
  { rewrite Hn. apply paint_set_bits_spec; lia. }
  destruct Hm as [-> | ->]; rewrite Hnew, fill_solid_all by exact Hn;
    cbn [mbind option_bind]; rewrite Hp; reflexivity.
Qed.

Lemma update_on_new st :
  strip_ok st -> _newMode st = true -> _mode st = MODE_ON ->
  update P st
  = Some (set_newMode
            (set_leds st (replicate (length (_leds st)) (_color st))) false).
Proof.
  intros Hn Hnew Hm. unfold update.
  rewrite Hm, Hnew, fill_solid_all by exact Hn. reflexivity.
Qed.

(** Once the mode is not new, a tick of a static mode changes nothing. *)
Lemma update_static_old st :
  _newMode st = false -> _mode st = MODE_ON \/ _mode st = MODE_BITMAP ->
  update P st = Some st.
Proof.
  intros Hnew [Hm | Hm]; unfold update; rewrite Hm, Hnew; reflexivity.
Qed.

Lemma ticks_static_old k st :
  _newMode st = false -> _mode st = MODE_ON \/ _mode st = MODE_BITMAP ->
  ticks P k st = Some st.
Proof.
  intros Hnew Hm. induction k as [|k IH]; [reflexivity|].
  simpl. rewrite update_static_old by assumption. exact IH.
Qed.

(** C8: in One Color (solid) or Pattern (bitmap) mode, however many ticks
    follow each other with no setter call in between, the first tick
    returns and every later tick returns with the pixels exactly as the
    first tick left them. *)
Theorem static_modes_idempotent st :
  strip_ok st -> _mode st = MODE_ON \/ _mode st = MODE_BITMAP ->
  exists s1, update P st = Some s1 /\
    forall k, exists sk, ticks P (S k) st = Some sk /\ _leds sk = _leds s1.
Proof.
  intros Hn Hm.
  assert (H1 : exists s1, update P st = Some s1 /\ _newMode s1 = false /\
                          (_mode s1 = MODE_ON \/ _mode s1 = MODE_BITMAP)).
  { destruct (_newMode st) eqn:Hnew.
    - destruct Hm as [Hm | Hm].
      + rewrite update_on_new by assumption. eexists. split; [reflexivity|].
        simpl. auto.
      + rewrite update_bitmap_new by auto. eexists. split; [reflexivity|].
        simpl. auto.
    - rewrite update_static_old by assumption. eauto. }
  destruct H1 as (s1 & Hu & Hnew1 & Hm1).
  exists s1. split; [exact Hu|].
  intros k. exists s1. split; [|reflexivity].
  simpl. rewrite Hu. simpl. apply ticks_static_old; assumption.
Qed.

(** *** The progress bar *)

Lemma setProgress_lit st color percent :
  setProgress P st color percent
  = set_bitmap (set_color (set_mode (set_newMode st true) MODE_BITMAP) color)
      (to_ulong (shl_ul P 1
         (Z.quot (mul_int P (_ledCount st) (clamp_percent percent)) 100) - 1)).
Proof.
  unfold setProgress, clamp_percent. simpl.
  destruct (Z.gtb_spec percent 100).
  - replace (Z.min 100 percent) with 100 by lia. reflexivity.
  - replace (Z.min 100 percent) with percent by lia.
    destruct (Z.ltb_spec percent 0).
    + replace (Z.max 0 percent) with 0 by lia. reflexivity.
    + replace (Z.max 0 percent) with percent by lia. reflexivity.
Qed.

Lemma mul_wrap32_mod a b :
  mul_wrap32 a b = (a * b + 2 ^ 31) mod 2 ^ 32 - 2 ^ 31.
Proof.
  unfold mul_wrap32. cbv zeta.
  rewrite Z.shiftl_1_l, Z.shiftr_div_pow2, Z.shiftl_mul_pow2 by lia.
  pose proof (Z.div_mod (a * b + 2 ^ 31) (2 ^ 32) ltac:(lia)). lia.
Qed.

(** A product within the 16-bit range is the product. *)
Lemma mul_int_exact a b : -32768 <= a * b <= 32767 -> mul_int P a b = a * b.
Proof.
  intros H. unfold mul_int, fits_int16.
  destruct (Z.leb_spec (-32768) (a * b)); [|lia].
  destruct (Z.leb_spec (a * b) 32767); [reflexivity | lia].
Qed.

Lemma lit_bounds n percent :
  0 <= n ->
  Z.quot (n * clamp_percent percent) 100 = n * clamp_percent percent / 100 /\
  0 <= n * clamp_percent percent / 100 <= n.
Proof.
  intros Hn. unfold clamp_percent.
  assert (Hp : 0 <= Z.max 0 (Z.min 100 percent) <= 100) by lia.
  set (p := Z.max 0 (Z.min 100 percent)) in *.
  split; [apply Z.quot_div_nonneg; nia|].
  split; [apply Z.div_pos; nia|].
  apply Z.div_le_upper_bound; nia.
Qed.

Lemma ones_bitmap lit :
  0 <= lit < 32 -> to_ulong (shl_ul P 1 lit - 1) = 2 ^ lit - 1.
Proof.
  intros H. pose proof (pow2_lt_32 lit H).
  pose proof (Z.pow_pos_nonneg 2 lit).
  rewrite shl_ul_in_range, Z.shiftl_1_l, (to_ulong_small (2 ^ lit)) by lia.
  apply to_ulong_small. lia.
Qed.

(** C3 (as the code has it): for every strip of N > 0 pixels, every
    colour and every percent, with [lit = floor (N * clamp percent / 100)]
    and provided [lit < 32] (so for every N up to 31), [setProgress]
    stores the bitmap [2 ^ lit - 1], whose set bits are exactly bits
    0..lit-1, and the next tick lights pixels 0..lit-1 in the colour and
    leaves the rest black, whatever the mode was before.  On 10 pixels 50
    percent lights pixels 0..4.  Any percent of 100 or more leaves the
    state that 100 leaves, any percent of 0 or less the state that 0
    leaves, on every strip. *)
Theorem setProgress_bar st color :
  (forall percent,
     let lit := _ledCount st * clamp_percent percent / 100 in
     strip_ok st -> 0 < _ledCount st -> lit < 32 ->
     _bitmap (setProgress P st color percent) = 2 ^ lit - 1 /\
     (forall i, 0 <= i ->
        Z.testbit (_bitmap (setProgress P st color percent)) i = (i <? lit)) /\
     exists s1, update P (setProgress P st color percent) = Some s1 /\
                _leds s1 = progress_bar (_ledCount st) lit color) /\
  (strip_ok st -> _ledCount st = 10 ->
     exists s1, update P (setProgress P st color 50) = Some s1 /\
                _leds s1 = replicate 5 color ++ replicate 5 Black) /\
  (forall percent, 100 <= percent ->
     setProgress P st color percent = setProgress P st color 100) /\
  (forall percent, percent <= 0 ->
     setProgress P st color percent = setProgress P st color 0).
Proof.
  assert (Hmain : forall percent,
     let lit := _ledCount st * clamp_percent percent / 100 in
     strip_ok st -> 0 < _ledCount st -> lit < 32 ->
     _bitmap (setProgress P st color percent) = 2 ^ lit - 1 /\
     (forall i, 0 <= i ->
        Z.testbit (_bitmap (setProgress P st color percent)) i = (i <? lit)) /\
     exists s1, update P (setProgress P st color percent) = Some s1 /\
                _leds s1 = progress_bar (_ledCount st) lit color).
  { intros percent lit Hn Hpos Hlit.
    destruct (lit_bounds (_ledCount st) percent) as (Hq & Hl0 & HlN); [lia|].
    fold lit in Hq, Hl0, HlN.
    assert (Hb : _bitmap (setProgress P st color percent) = 2 ^ lit - 1).
    { rewrite setProgress_lit. cbn [_bitmap set_bitmap].
      rewrite mul_int_exact, Hq; [apply ones_bitmap; lia|].
      unfold lit in Hlit, Hl0.
      clear Hq HlN. revert Hlit Hl0.
      generalize (_ledCount st * clamp_percent percent). intros x H1 H2.
      Z.div_mod_to_equations. lia. }
    split; [exact Hb|]. split.
    - intros i Hi. rewrite Hb.
      replace (2 ^ lit - 1) with (Z.ones lit) by (rewrite Z.ones_equiv; lia).
      apply Z.testbit_ones_nonneg; lia.
    - rewrite update_bitmap_new.
      + eexists. split; [reflexivity|]. unfold set_newMode, set_leds; cbn [_leds].
        rewrite Hb. change (_ledCount (setProgress P st color percent))
          with (_ledCount st).
        change (_color (setProgress P st color percent)) with color.
        apply painted_ones; lia.
      + exact Hn.
      + reflexivity.
      + left. reflexivity. }
  split; [exact Hmain|]. split; [|split].
  - intros Hn H10.
    destruct (Hmain 50) as (_ & _ & s1 & Hu & Hl); [exact Hn | lia | |].
    + rewrite H10. vm_compute. reflexivity.
    + exists s1. split; [exact Hu|]. rewrite Hl, H10. reflexivity.
  - intros percent Hp. rewrite !setProgress_lit. unfold clamp_percent.
    replace (Z.max 0 (Z.min 100 percent)) with (Z.max 0 (Z.min 100 100)) by lia.
    reflexivity.
  - intros percent Hp. rewrite !setProgress_lit. unfold clamp_percent.
    replace (Z.max 0 (Z.min 100 percent)) with (Z.max 0 (Z.min 100 0)) by lia.
    reflexivity.
Qed.

(** Beyond pixel 31 nothing is ever painted, whatever the bitmap. *)
Lemma progress_pixel_32_black st color percent s1 :
  strip_ok st -> 32 < _ledCount st ->
  update P (setProgress P st color percent) = Some s1 ->
  _leds s1 !! 32%nat = Some Black.
Proof.
  intros Hn H32 Hu. rewrite update_bitmap_new in Hu by auto.
  injection Hu as <-. unfold set_newMode, set_leds; cbn [_leds].
  change (_ledCount (setProgress P st color percent)) with (_ledCount st).
  rewrite lookup_painted by lia.
  destruct (Z.ltb_spec (Z.of_nat 32) (Z.min (_ledCount st) 32)); [lia|].
  reflexivity.
Qed.

(** *** Full progress on strips of 32 pixels and more *)

(** C10 (as the code has it): on a strip of 32 pixels
    [setProgress(color, 100)] computes [lit = 32] and shifts [1UL] by
    [lit], the width of the mask.  When the machine takes the shift count
    modulo 32 the stored bitmap is 0, and the next tick lights no pixel at
    all where all should be lit.  The same happens on the wider strips
    whose length [N] is a multiple of 32, as long as the product [N * 100]
    stays within the range every [int] has, that is up to 320 pixels. *)
Theorem setProgress_full_wraps st color :
  shl_wide P = shl_count_mod32 -> strip_ok st ->
  32 <= _ledCount st -> _ledCount st * 100 <= 32767 ->
  _ledCount st mod 32 = 0 ->
  let lit := Z.quot (mul_int P (_ledCount st) 100) 100 in
  lit = _ledCount st /\
  _bitmap (setProgress P st color 100) = 0 /\
  exists s1, update P (setProgress P st color 100) = Some s1 /\
             _leds s1 = replicate (length (_leds st)) Black.
Proof.
  intros Hw Hn H32 Hfit Hmod lit.
  assert (Hlit : lit = _ledCount st).
  { unfold lit. rewrite mul_int_exact by lia. apply Z.quot_mul. lia. }
  assert (Hb : _bitmap (setProgress P st color 100) = 0).
  { rewrite setProgress_lit. cbn [_bitmap set_bitmap].
    change (clamp_percent 100) with 100. fold lit. rewrite Hlit.
    unfold shl_ul, shift_in_range, ULONG_BITS.
    destruct (Z.ltb_spec (_ledCount st) 32); [lia|]. rewrite andb_false_r, Hw.
    unfold shl_count_mod32, ULONG_BITS. rewrite Hmod. reflexivity. }
  split; [exact Hlit|]. split; [exact Hb|].
  rewrite update_bitmap_new by auto.
  eexists. split; [reflexivity|]. unfold set_newMode, set_leds; cbn [_leds].
  rewrite Hb. change (_ledCount (setProgress P st color 100)) with (_ledCount st).
  rewrite painted_zero by lia. rewrite Hn, Nat2Z.id. reflexivity.
Qed.

End Static.

(** ** The shift helpers *)

Lemma length_shifted_fwd l : length (shifted_fwd l) = length l.
Proof. unfold shifted_fwd. rewrite length_app, length_drop, length_take. lia. Qed.

Lemma length_shifted_rev l : length (shifted_rev l) = length l.
Proof. unfold shifted_rev. rewrite length_app, length_drop, length_take. lia. Qed.

Lemma lookup_shifted_fwd l (j : nat) :
  (j < length l)%nat ->
  shifted_fwd l !! j = l !! (if decide (j = 0%nat) then (length l - 1)%nat else (j - 1)%nat).
Proof.
  intros Hj. unfold shifted_fwd. destruct (decide (j = 0%nat)) as [->|Hne].
  - rewrite lookup_app_l by (rewrite length_drop; lia).
    rewrite lookup_drop. f_equal. lia.
  - rewrite lookup_app_r by (rewrite length_drop; lia).
    rewrite length_drop, lookup_take_lt by lia. f_equal. lia.
Qed.

Lemma lookup_shifted_rev l (j : nat) :
  (j < length l)%nat ->
  shifted_rev l !! j = l !! (if decide (j = (length l - 1)%nat) then 0%nat else S j).
Proof.
  intros Hj. unfold shifted_rev. destruct (decide (j = (length l - 1)%nat)) as [->|Hne].
  - rewrite lookup_app_r by (rewrite length_drop; lia).
    rewrite length_drop, lookup_take_lt by lia. f_equal. lia.
  - rewrite lookup_app_l by (rewrite length_drop; lia).
    rewrite lookup_drop. f_equal.
Qed.

(** The loop of [shiftFwd], which copies every pixel but the first from
    its left neighbour, going down. *)
Lemma shift_down_loop (l0 : list CRGB) (n : nat) :
  length l0 = S n ->
  exists l, for_loop n (Z.of_nat n) (-1)
              (fun i l => x ← load l (i - 1); store l i x) l0 = Some l /\
            length l = S n /\
            forall j : nat, (j <= n)%nat ->
              l !! j = l0 !! (if decide (j = 0%nat) then 0%nat else (j - 1)%nat).
Proof.
  intros Hl.
  destruct (for_loop_rule
    (fun k l => length l = S n /\
       forall j : nat, (j <= n)%nat ->
         l !! j = l0 !! (if decide (n - k < j)%nat then (j - 1)%nat else j))
    n (Z.of_nat n) (-1) (fun i l => x ← load l (i - 1); store l i x) l0)
    as (l & Hr & Hlen & Hpt).
  - split; [exact Hl|]. intros j Hj. destruct (decide (n - 0 < j)%nat); [lia|reflexivity].
  - intros k x Hk [Hlen Hpt].
    replace (Z.of_nat n + Z.of_nat k * -1) with (Z.of_nat (n - k)) by lia.
    replace (Z.of_nat (n - k) - 1) with (Z.of_nat (n - k - 1)) by lia.
    rewrite load_nat, Hpt by lia.
    destruct (decide (n - k < n - k - 1)%nat); [lia|].
    destruct (lookup_in_range l0 (n - k - 1)) as [y Hy]; [lia|].
    rewrite Hy. cbn [mbind option_bind]. rewrite store_nat by lia.
    eexists. split; [reflexivity|]. split; [rewrite length_insert; exact Hlen|].
    intros j Hj. rewrite list_lookup_insert.
    destruct (decide ((n - k)%nat = j /\ (n - k < length x)%nat)) as [[<- _]|Hne].
    + destruct (decide (n - S k < n - k)%nat); [|lia]. rewrite Hy. reflexivity.
    + rewrite Hpt by lia.
      destruct (decide (n - k < j)%nat), (decide (n - S k < j)%nat);
        try reflexivity; lia.
  - exists l. split; [exact Hr|]. split; [exact Hlen|].
    intros j Hj. rewrite Hpt by lia.
    destruct (decide (n - n < j)%nat), (decide (j = 0%nat)); try reflexivity; try lia.
    subst j. reflexivity.
Qed.

(** The loop of [shiftRev], which copies every pixel but the last from
    its right neighbour, going up. *)
Lemma shift_up_loop (l0 : list CRGB) (n : nat) :
  length l0 = S n ->
  exists l, for_loop n 0 1
              (fun i l => x ← load l (i + 1); store l i x) l0 = Some l /\
            length l = S n /\
            forall j : nat, l !! j = l0 !! (if decide (j < n)%nat then S j else j).
Proof.
  intros Hl.
  destruct (for_loop_rule
    (fun k l => length l = S n /\
       forall j : nat, l !! j = l0 !! (if decide (j < k)%nat then S j else j))
    n 0 1 (fun i l => x ← load l (i + 1); store l i x) l0)
    as (l & Hr & Hlen & Hpt).
  - split; [exact Hl|]. intros j. destruct (decide (j < 0)%nat); [lia|reflexivity].
  - intros k x Hk [Hlen Hpt].
    replace (0 + Z.of_nat k * 1) with (Z.of_nat k) by lia.
    replace (Z.of_nat k + 1) with (Z.of_nat (S k)) by lia.
    rewrite load_nat, Hpt.
    destruct (decide (S k < k)%nat); [lia|].
    destruct (lookup_in_range l0 (S k)) as [y Hy]; [lia|].
    rewrite Hy. cbn [mbind option_bind]. rewrite store_nat by lia.
    eexists. split; [reflexivity|]. split; [rewrite length_insert; exact Hlen|].
    intros j. rewrite list_lookup_insert.
    destruct (decide (k = j /\ (k < length x)%nat)) as [[<- _]|Hne].
    + destruct (decide (k < S k)%nat); [|lia]. rewrite Hy. reflexivity.
    + rewrite Hpt.
      destruct (decide (j < k)%nat), (decide (j < S k)%nat);
        try reflexivity; lia.
  - exists l. split; [exact Hr|]. split; [exact Hlen|]. exact Hpt.
Qed.

Lemma shiftFwd_spec st :
  strip_ok st -> 0 < _ledCount st ->
  shiftFwd st = Some (set_leds st (shifted_fwd (_leds st))).
Proof.
  intros Hn Hpos. unfold shiftFwd.
  destruct (length (_leds st)) as [|n] eqn:Hlen; [unfold strip_ok in Hn; lia|].
  assert (HN : _ledCount st - 1 = Z.of_nat n) by (unfold strip_ok in Hn; lia).
  rewrite HN, load_nat, Nat2Z.id.
  destruct (lookup_in_range (_leds st) n) as [y Hy]; [lia|].
  rewrite Hy. cbn [mbind option_bind].
  destruct (shift_down_loop (_leds st) n Hlen) as (l & Hr & Hl & Hpt).
  rewrite Hr. cbn [mbind option_bind].
  rewrite (store_nat l 0) by lia. cbn [mbind option_bind].
  do 2 f_equal. apply list_eq_pointwise.
  - rewrite length_insert, length_shifted_fwd. lia.
  - intros j Hj. rewrite length_insert in Hj.
    rewrite lookup_shifted_fwd, list_lookup_insert by lia.
    destruct (decide (0%nat = j /\ (0 < length l)%nat)) as [[<- _]|Hne].
    + simpl. rewrite Hlen. replace (S n - 1)%nat with n by lia. symmetry. exact Hy.
    + rewrite Hpt by lia. destruct (decide (j = 0%nat)); [lia | reflexivity].
Qed.

Lemma shiftRev_spec st :
  strip_ok st -> 0 < _ledCount st ->
  shiftRev st = Some (set_leds st (shifted_rev (_leds st))).
Proof.
  intros Hn Hpos. unfold shiftRev.
  destruct (length (_leds st)) as [|n] eqn:Hlen; [unfold strip_ok in Hn; lia|].
  assert (HN : _ledCount st - 1 = Z.of_nat n) by (unfold strip_ok in Hn; lia).
  rewrite HN, (load_nat _ 0), Nat2Z.id.
  destruct (lookup_in_range (_leds st) 0) as [y Hy]; [lia|].
  rewrite Hy. cbn [mbind option_bind].
  destruct (shift_up_loop (_leds st) n Hlen) as (l & Hr & Hl & Hpt).
  rewrite Hr. cbn [mbind option_bind].
  rewrite (store_nat l n) by lia. cbn [mbind option_bind].
  do 2 f_equal. apply list_eq_pointwise.
  - rewrite length_insert, length_shifted_rev. lia.
  - intros j Hj. rewrite length_insert in Hj.
    rewrite lookup_shifted_rev, list_lookup_insert by lia.
    rewrite Hlen. replace (S n - 1)%nat with n by lia.
    destruct (decide (n = j /\ (n < length l)%nat)) as [[<- _]|Hne].
    + destruct (decide (n = n)); [|lia]. symmetry. exact Hy.
    + rewrite Hpt.
      destruct (decide (j = n)), (decide (j < n)%nat); try reflexivity; lia.
Qed.

(** ** One lit pixel *)

Lemma length_one_hot n i c : length (one_hot n i c) = Z.to_nat n.
Proof. unfold one_hot. rewrite length_insert, length_replicate. reflexivity. Qed.

Lemma lookup_one_hot n i c (j : nat) :
  0 <= i < n -> (j < Z.to_nat n)%nat ->
  one_hot n i c !! j = Some (if decide (j = Z.to_nat i) then c else Black).
Proof.
  intros Hi Hj. unfold one_hot. rewrite list_lookup_insert, length_replicate.
  destruct (decide (Z.to_nat i = j /\ (Z.to_nat i < Z.to_nat n)%nat)) as [[<- _]|Hne].
  - destruct (decide (Z.to_nat i = Z.to_nat i)); [reflexivity | congruence].
  - destruct (decide (j = Z.to_nat i)) as [->|]; [lia|].
    apply lookup_replicate_lt. exact Hj.
Qed.

Lemma shifted_fwd_one_hot n i c :
  0 <= i < n -> shifted_fwd (one_hot n i c) = one_hot n ((i + 1) mod n) c.
Proof.
  intros Hi. pose proof (Z.mod_pos_bound (i + 1) n ltac:(lia)) as Hm.
  apply list_eq_pointwise.
  - rewrite length_shifted_fwd, !length_one_hot. reflexivity.
  - intros j Hj. rewrite length_shifted_fwd, length_one_hot in Hj.
    rewrite lookup_shifted_fwd by (rewrite length_one_hot; exact Hj).
    rewrite length_one_hot, !lookup_one_hot by (try destruct (decide _); lia).
    f_equal.
    destruct (decide (i = n - 1)) as [->|Hne].
    + replace (n - 1 + 1) with n by lia. rewrite Z.mod_same by lia.
      destruct (decide (j = 0%nat)) as [->|];
        repeat (destruct (decide _)); try reflexivity; lia.
    + rewrite Z.mod_small by lia.
      destruct (decide (j = 0%nat)) as [->|];
        repeat (destruct (decide _)); try reflexivity; lia.
Qed.

Lemma iter_shifted_fwd_one_hot n i c (k : nat) :
  0 <= i < n ->
  Nat.iter k shifted_fwd (one_hot n i c) = one_hot n ((i + Z.of_nat k) mod n) c.
Proof.
  intros Hi. induction k as [|k IH].
  - simpl. rewrite Z.add_0_r, Z.mod_small by lia. reflexivity.
  - simpl. rewrite IH, shifted_fwd_one_hot by (apply Z.mod_pos_bound; lia).
    rewrite Z.add_mod_idemp_l by lia. f_equal. f_equal. lia.
Qed.

Lemma lit_from_black s c (k : nat) :
  c <> Black -> lit_from s c (replicate k Black) = [].
Proof.
  intros Hc. revert s. induction k as [|k IH]; intros s; [reflexivity|].
  simpl. rewrite CRGB_eqb_neq by congruence. apply IH.
Qed.

Lemma lit_from_insert s c (n i : nat) :
  c <> Black -> (i < n)%nat ->
  lit_from s c (<[i := c]> (replicate n Black)) = [s + Z.of_nat i].
Proof.
  intros Hc. revert s i. induction n as [|n IH]; intros s i Hi; [lia|].
  destruct i as [|i]; simpl.
  - rewrite CRGB_eqb_refl, lit_from_black by exact Hc.
    simpl. f_equal. lia.
  - rewrite CRGB_eqb_neq by congruence. simpl. rewrite IH by lia.
    f_equal. lia.
Qed.

(** On a strip with one lit pixel, that pixel is the only one to show the
    colour, unless the colour is black. *)
Lemma lit_indices_one_hot n i c :
  c <> Black -> 0 <= i < n -> lit_indices c (one_hot n i c) = [i].
Proof.
  intros Hc Hi. unfold lit_indices, one_hot.
  rewrite lit_from_insert by (exact Hc || lia). f_equal. lia.
Qed.

Section Running.

Variable P : Platform.

Lemma set_leds_same st : set_leds st (_leds st) = st.
Proof. destruct st. reflexivity. Qed.

(** Filling the strip with black and lighting its first pixel. *)
Lemma light_first st c :
  strip_ok st -> 0 < _ledCount st ->
  store (replicate (length (_leds st)) Black) 0 c
  = Some (one_hot (_ledCount st) 0 c).
Proof.
  intros Hn Hpos.
  rewrite (store_nat _ 0) by (rewrite length_replicate; unfold strip_ok in Hn; lia).
  unfold one_hot. rewrite Hn, Nat2Z.id. reflexivity.
Qed.

(** The first tick of Run Forward. *)
Lemma update_run_fwd_new st :
  strip_ok st -> 0 < _ledCount st -> _mode st = MODE_RUNFWD -> _newMode st = true ->
  update P st
  = Some (set_newMode (set_leds st (one_hot (_ledCount st) 0 (_color st))) false).
Proof.
  intros Hn Hpos Hm Hnew. unfold update.
  rewrite Hm, Hnew, fill_solid_all by exact Hn. cbn [mbind option_bind].
  rewrite light_first by assumption. reflexivity.
Qed.

Lemma update_run_fwd st :
  strip_ok st -> 0 < _ledCount st -> _mode st = MODE_RUNFWD -> _newMode st = false ->
  update P st = Some (set_leds st (shifted_fwd (_leds st))).
Proof.
  intros Hn Hpos Hm Hnew. unfold update. rewrite Hm, Hnew.
  apply shiftFwd_spec; assumption.
Qed.

Lemma update_run_rev st :
  strip_ok st -> 0 < _ledCount st -> _mode st = MODE_RUNREV -> _newMode st = false ->
  update P st = Some (set_leds st (shifted_rev (_leds st))).
Proof.
  intros Hn Hpos Hm Hnew. unfold update. rewrite Hm, Hnew.
  apply shiftRev_spec; assumption.
Qed.

Lemma ticks_run_fwd k st :
  strip_ok st -> 0 < _ledCount st -> _mode st = MODE_RUNFWD -> _newMode st = false ->
  ticks P k st = Some (set_leds st (Nat.iter k shifted_fwd (_leds st))).
Proof.
  revert st. induction k as [|k IH]; intros st Hn Hpos Hm Hnew.
  - simpl. rewrite set_leds_same. reflexivity.
  - cbn [ticks]. rewrite update_run_fwd by assumption. cbn [mbind option_bind].
    rewrite IH; try assumption.
    + rewrite Nat.iter_succ_r. reflexivity.
    + unfold strip_ok in *. cbn. rewrite length_shifted_fwd. exact Hn.
Qed.

Lemma ticks_run_rev k st :
  strip_ok st -> 0 < _ledCount st -> _mode st = MODE_RUNREV -> _newMode st = false ->
  ticks P k st = Some (set_leds st (Nat.iter k shifted_rev (_leds st))).
Proof.
  revert st. induction k as [|k IH]; intros st Hn Hpos Hm Hnew.
  - simpl. rewrite set_leds_same. reflexivity.
  - cbn [ticks]. rewrite update_run_rev by assumption. cbn [mbind option_bind].
    rewrite IH; try assumption.
    + rewrite Nat.iter_succ_r. reflexivity.
    + unfold strip_ok in *. cbn. rewrite length_shifted_rev. exact Hn.
Qed.

(** C6 (as the code has it): for every strip of N > 0 pixels and every
    base colour other than black, the first tick after [setRunFwd] leaves
    the colour on pixel 0 and black everywhere else, so exactly one pixel
    equals the base colour; after [k] further ticks exactly one pixel
    equals the base colour, the one of index [k mod N]. *)
Theorem runFwd_one_pixel st c (k : nat) :
  strip_ok st -> 0 < _ledCount st -> c <> Black ->
  exists s1 sk,
    update P (setRunFwd st c) = Some s1 /\
    _leds s1 = one_hot (_ledCount st) 0 c /\
    lit_indices c (_leds s1) = [0] /\
    ticks P k s1 = Some sk /\
    _leds sk = one_hot (_ledCount st) (Z.of_nat k mod _ledCount st) c /\
    lit_indices c (_leds sk) = [Z.of_nat k mod _ledCount st].
Proof.
  intros Hn Hpos Hc.
  pose proof (Z.mod_pos_bound (Z.of_nat k) (_ledCount st) Hpos) as Hk.
  eexists _, _. split; [apply update_run_fwd_new; (assumption || reflexivity)|].
  change (_ledCount (setRunFwd st c)) with (_ledCount st).
  change (_color (setRunFwd st c)) with c.
  split; [reflexivity|].
  split; [apply lit_indices_one_hot; [exact Hc | lia]|].
  split.
  - apply ticks_run_fwd; try reflexivity; try assumption.
    unfold strip_ok. cbn. rewrite length_one_hot. lia.
  - cbn [_leds set_leds set_newMode].
    rewrite iter_shifted_fwd_one_hot by lia. rewrite Z.add_0_l.
    split; [reflexivity|]. apply lit_indices_one_hot; assumption.
Qed.

(** *** Rainbow *)

Lemma length_rainbow n : length (rainbow P n) = Z.to_nat n.
Proof. unfold rainbow. rewrite length_fmap, length_seqZ. reflexivity. Qed.

Lemma lookup_rainbow n (j : nat) :
  Z.of_nat j < n ->
  rainbow P n !! j = Some (hsv2rgb P (Z.of_nat j * Z.quot 256 n) 255 255).
Proof.
  intros Hj. unfold rainbow. rewrite list_lookup_fmap, lookup_seqZ_lt by lia.
  reflexivity.
Qed.

(** The hue of every pixel fits the byte that carries it. *)
Lemma hue_fits n i : 0 <= i < n -> 0 <= i * Z.quot 256 n < 256.
Proof.
  intros Hi. rewrite Z.quot_div_nonneg by lia.
  pose proof (Z.mul_div_le 256 n ltac:(lia)).
  pose proof (Z.div_pos 256 n ltac:(lia) ltac:(lia)).
  nia.
Qed.

Lemma load_rainbow_spec st :
  strip_ok st -> 0 < _ledCount st ->
  load_rainbow P st (Z.quot 256 (_ledCount st)) = Some (rainbow P (_ledCount st)).
Proof.
  intros Hn Hpos. unfold load_rainbow. unfold strip_ok in Hn.
  set (A := rainbow P (_ledCount st)).
  assert (HlA : length A = length (_leds st))
    by (unfold A; rewrite length_rainbow, Hn; lia).
  destruct (for_loop_rule
              (fun k l => l = take k A ++ drop k (_leds st))
              (Z.to_nat (_ledCount st)) 0 1
              (fun i l => store l i
                 (hsv2rgb P ((i * Z.quot 256 (_ledCount st)) mod 256) 255 255))
              (_leds st))
    as (l' & Hl & ->); [reflexivity | |].
  - intros k x Hk ->.
    replace (0 + Z.of_nat k * 1) with (Z.of_nat k) by lia.
    rewrite Z.mod_small by (apply hue_fits; lia).
    rewrite store_nat by (rewrite length_app, length_take, length_drop; lia).
    eexists. split; [reflexivity|].
    apply take_drop_insert; [|unfold strip_ok in Hn; lia].
    unfold A. apply lookup_rainbow. lia.
  - rewrite Hl. f_equal.
    rewrite take_ge, drop_ge by (unfold strip_ok in Hn; lia).
    apply app_nil_r.
Qed.

(** The first tick of the two Rainbow modes. *)
Lemma update_rainbow_new st :
  strip_ok st -> 0 < _ledCount st -> _newMode st = true ->
  (_mode st = MODE_RAINBF ->
   update P st
   = Some (set_mode (set_newMode (set_leds st (rainbow P (_ledCount st))) false)
                    MODE_RUNFWD)) /\
  (_mode st = MODE_RAINBR ->
   update P st
   = Some (set_mode (set_newMode (set_leds st (rainbow P (_ledCount st))) false)
                    MODE_RUNREV)).
Proof.
  intros Hn Hpos Hnew.
  assert (H0 : (_ledCount st =? 0) = false) by (apply Z.eqb_neq; lia).
  split; intros Hm; unfold update;
    rewrite Hm, H0, Hnew, load_rainbow_spec by assumption; reflexivity.
Qed.


End Running.

(** ** Cylon *)

Section Cylon.

Variable P : Platform.
Hypothesis codes_differ : code P MODE_RUNFWD <> code P MODE_RUNREV.

Lemma rev_is_not_fwd : (code P MODE_RUNREV =? code P MODE_RUNFWD) = false.
Proof. apply Z.eqb_neq. congruence. Qed.

(** The first tick of Cylon. *)
Lemma update_cylon_new st :
  strip_ok st -> 0 < _ledCount st -> _mode st = MODE_CYLON -> _newMode st = true ->
  update P st
  = Some (set_newMode
            (set_curdir (set_leds st (one_hot (_ledCount st) 0 (_color st)))
                        (code P MODE_RUNFWD))
            false).
Proof.
  intros Hn Hpos Hm Hnew. unfold update.
  rewrite Hm, Hnew, fill_solid_all by exact Hn. cbn [mbind option_bind].
  rewrite light_first by assumption. reflexivity.
Qed.

Ltac cylon_tick :=
  unfold update, shiftFwd, shiftRev; simpl;
  rewrite ?Z.eqb_refl, ?rev_is_not_fwd; simpl;
  rewrite ?CRGB_eqb_refl, ?(CRGB_eqb_neq Black) by congruence; simpl;
  reflexivity.

(** Every later tick moves the Cylon one place along its round. *)
Lemma cylon4_step base t :
  _color base <> Black -> _mode base = MODE_CYLON -> _newMode base = false ->
  _ledCount base = 4 ->
  update P (cylon4_state P base t) = Some (cylon4_state P base (S t)).
Proof.
  intros Hc Hm Hnew HN.
  assert (Hr : (t mod 8 < 8)%nat) by (apply Nat.mod_upper_bound; lia).
  assert (HS : (S t mod 8 = (t mod 8 + 1) mod 8)%nat).
  { rewrite Nat.Div0.add_mod_idemp_l. f_equal. lia. }
  unfold cylon4_state, cylon4_pos. rewrite HS.
  set (r := (t mod 8)%nat) in *. clearbody r.
  destruct base as [n leds nm m col cfg dir bm]. simpl in *. subst n nm m.
  do 8 (destruct r as [|r]; [cylon_tick|]). lia.
Qed.

Lemma ticks_cylon4 k base t :
  _color base <> Black -> _mode base = MODE_CYLON -> _newMode base = false ->
  _ledCount base = 4 ->
  ticks P k (cylon4_state P base t) = Some (cylon4_state P base (t + k)).
Proof.
  intros Hc Hm Hnew HN. revert t. induction k as [|k IH]; intros t.
  - rewrite Nat.add_0_r. reflexivity.
  - cbn [ticks]. rewrite cylon4_step by assumption. cbn [mbind option_bind].
    rewrite IH. do 2 f_equal. lia.
Qed.

(** With black as its colour the Cylon only changes direction. *)
Lemma ticks_cylon4_black k base fwd :
  _color base = Black -> _mode base = MODE_CYLON -> _newMode base = false ->
  _ledCount base = 4 ->
  exists fwd',
    ticks P k (set_curdir (set_leds base (replicate 4 Black)) (dir_code P fwd))
    = Some (set_curdir (set_leds base (replicate 4 Black)) (dir_code P fwd')).
Proof.
  intros Hc Hm Hnew HN. revert fwd. induction k as [|k IH]; intros fwd.
  - exists fwd. reflexivity.
  - destruct (IH (negb fwd)) as [fwd' Hk]. exists fwd'.
    cbn [ticks].
    replace (update P (set_curdir (set_leds base (replicate 4 Black)) (dir_code P fwd)))
      with (Some (set_curdir (set_leds base (replicate 4 Black))
                             (dir_code P (negb fwd)))); [exact Hk|].
    destruct base as [n leds nm m col cfg dir bm]. simpl in *. subst n nm m col.
    destruct fwd; symmetry; unfold update; simpl;
      rewrite ?Z.eqb_refl, ?rev_is_not_fwd; reflexivity.
Qed.

Lemma cylon4_pos_range t : 0 <= cylon4_pos t < 4.
Proof.
  unfold cylon4_pos.
  assert (Hr : (t mod 8 < 8)%nat) by (apply Nat.mod_upper_bound; lia).
  set (r := (t mod 8)%nat) in *. clearbody r.
  do 8 (destruct r as [|r]; [simpl; lia|]). lia.
Qed.

Lemma one_hot4_black i : 0 <= i < 4 -> one_hot 4 i Black = replicate 4 Black.
Proof.
  intros Hi. assert (i = 0 \/ i = 1 \/ i = 2 \/ i = 3) as [->|[->|[->| ->]]] by lia;
    reflexivity.
Qed.

(** C4: on a strip of four pixels, after [setCylon(C)], tick after tick
    the pixel that holds [C] (all others being black) has index
    0,1,2,3,3,2,1,0,0,1,2,...: each end is held for one extra tick and the
    sequence has period 8 = 2N. *)
Theorem cylon4_sequence st c :
  strip_ok st -> _ledCount st = 4 ->
  (forall t, exists s,
      ticks P (S t) (setCylon st c) = Some s /\
      _leds s = one_hot 4 (cylon4_pos t) c /\
      (c <> Black -> lit_indices c (_leds s) = [cylon4_pos t])) /\
  map cylon4_pos (seq 0 11) = [0; 1; 2; 3; 3; 2; 1; 0; 0; 1; 2] /\
  (forall t, cylon4_pos (t + 8) = cylon4_pos t).
Proof.
  intros Hn HN. split; [|split].
  - intros t. pose proof (cylon4_pos_range t) as Hp.
    cbn [ticks].
    rewrite update_cylon_new by (exact Hn || reflexivity || (cbn; lia)).
    cbn [mbind option_bind].
    change (_ledCount (setCylon st c)) with (_ledCount st). rewrite HN.
    change (_color (setCylon st c)) with c.
    destruct (CRGB_eqb c Black) eqn:E.
    + apply CRGB_eqb_eq in E. subst c.
      destruct (ticks_cylon4_black t (set_newMode (setCylon st Black) false) true)
        as [fwd' Hk]; try reflexivity; [exact HN|].
      exists (set_curdir
                (set_leds (set_newMode (setCylon st Black) false) (replicate 4 Black))
                (dir_code P fwd')).
      split; [exact Hk|].
      split; [cbn; symmetry; apply one_hot4_black; exact Hp | congruence].
    + assert (Hc : c <> Black).
      { intros ->. rewrite CRGB_eqb_refl in E. discriminate. }
      exists (cylon4_state P (set_newMode (setCylon st c) false) (0 + t)).
      split.
      * apply (ticks_cylon4 t (set_newMode (setCylon st c) false) 0%nat);
          try reflexivity; [exact Hc | exact HN].
      * cbn. split; [reflexivity|]. intros _.
        apply lit_indices_one_hot; assumption.
  - reflexivity.
  - intros t. unfold cylon4_pos.
    replace (t + 8)%nat with (t + 1 * 8)%nat by lia.
    rewrite Nat.Div0.mod_add. reflexivity.
Qed.

End Cylon.

(** ** Marquee *)

Lemma testbit_above n y i :
  0 <= y < 2 ^ n -> 0 <= n <= i -> Z.testbit y i = false.
Proof.
  intros Hy Hi. rewrite <- (Z.mod_small y (2 ^ n)) by exact Hy.
  apply Z.mod_pow2_bits_high. exact Hi.
Qed.

Lemma lor_below_pow2 n x y :
  0 <= n -> 0 <= x < 2 ^ n -> 0 <= y < 2 ^ n -> 0 <= Z.lor x y < 2 ^ n.
Proof.
  intros Hn Hx Hy.
  assert (H0 : 0 <= Z.lor x y) by (apply Z.lor_nonneg; lia).
  split; [exact H0|].
  destruct (Z.eq_dec (Z.lor x y) 0) as [->|Hne]; [apply Z.pow_pos_nonneg; lia|].
  apply Z.log2_lt_pow2; [lia|].
  destruct (Z.lt_ge_cases (Z.log2 (Z.lor x y)) n) as [|Hge]; [assumption|].
  pose proof (Z.bit_log2 (Z.lor x y) ltac:(lia)) as Hb.
  rewrite Z.lor_spec, (testbit_above n x), (testbit_above n y) in Hb
    by (assumption || lia).
  discriminate.
Qed.

Lemma testbit_rotl m x i :
  1 <= m -> 0 <= i ->
  Z.testbit (rotl m x) i
  = (i <? m) && (if i =? 0 then Z.testbit x (m - 1) else Z.testbit x (i - 1)).
Proof.
  intros Hm Hi. unfold rotl.
  rewrite Z.lor_spec.
  replace (x * 2) with (Z.shiftl x 1) by (rewrite Z.shiftl_mul_pow2; lia).
  rewrite <- Z.shiftr_div_pow2, Z.shiftr_spec by lia.
  destruct (Z.ltb_spec i m) as [Hlt|Hge].
  - rewrite Z.mod_pow2_bits_low, Z.shiftl_spec by lia.
    destruct (Z.eqb_spec i 0) as [->|Hne].
    + rewrite Z.testbit_neg_r by lia.
      rewrite Z.mod_pow2_bits_low by lia. reflexivity.
    + rewrite (Z.mod_pow2_bits_high x m (i + (m - 1))) by lia.
      rewrite orb_false_r. reflexivity.
  - rewrite !Z.mod_pow2_bits_high by lia. reflexivity.
Qed.

Lemma rotl_range m x : 1 <= m -> 0 <= rotl m x < 2 ^ m.
Proof.
  intros Hm. unfold rotl.
  pose proof (Z.pow_pos_nonneg 2 m ltac:(lia) ltac:(lia)) as Hp.
  pose proof (Z.pow_pos_nonneg 2 (m - 1) ltac:(lia) ltac:(lia)) as Hp1.
  assert (H2 : 2 ^ m = 2 * 2 ^ (m - 1)).
  { replace m with (Z.succ (m - 1)) at 1 by lia. apply Z.pow_succ_r. lia. }
  apply lor_below_pow2; [lia | apply Z.mod_pos_bound; lia |].
  pose proof (Z.mod_pos_bound x (2 ^ m) Hp) as Hx.
  split; [apply Z.div_pos; lia|].
  apply Z.div_lt_upper_bound; nia.
Qed.

Section Marquee.

Variable P : Platform.

Lemma marquee_next_shifts m b :
  1 <= m <= 32 -> 0 <= b < 2 ^ 32 ->
  marquee_next P m b = Z.lor (Z.shiftl b 1 mod 2 ^ 32) (Z.shiftr b (m - 1)).
Proof.
  intros Hm Hb. unfold marquee_next.
  rewrite (to_ulong_small (m - 1)) by lia.
  rewrite shl_ul_in_range, shr_ul_in_range by lia.
  f_equal. apply to_ulong_small.
  rewrite Z.shiftr_div_pow2 by lia. split.
  - apply Z.div_pos; [lia | apply Z.pow_pos_nonneg; lia].
  - apply Z.div_lt_upper_bound; [apply Z.pow_pos_nonneg; lia|].
    pose proof (Z.pow_pos_nonneg 2 (m - 1)). nia.
Qed.

Lemma marquee_next_range m b : 0 <= marquee_next P m b < 2 ^ 32.
Proof.
  unfold marquee_next, shl_ul, shr_ul.
  apply lor_below_pow2; [lia | apply to_ulong_range | apply to_ulong_range].
Qed.

(** The bits of the new bitmap, whatever the old one. *)
Lemma testbit_marquee_next m b i :
  1 <= m <= 32 -> 0 <= b < 2 ^ 32 -> 0 <= i ->
  Z.testbit (marquee_next P m b) i
  = ((i <? 32) && Z.testbit b (i - 1)) || Z.testbit b (i + (m - 1)).
Proof.
  intros Hm Hb Hi. rewrite marquee_next_shifts by assumption.
  rewrite Z.lor_spec, Z.shiftr_spec by lia. f_equal.
  destruct (Z.ltb_spec i 32).
  - rewrite Z.mod_pow2_bits_low, Z.shiftl_spec by lia. reflexivity.
  - rewrite Z.mod_pow2_bits_high by lia. reflexivity.
Qed.

(** On a bitmap rotated without trouble so far, the new bitmap moves every
    bit up by one and brings bit [m - 1] back to bit 0. *)
Lemma testbit_marquee_next_clean m L b i :
  1 <= m -> rotated_so_far m L b -> 0 <= i < 32 ->
  Z.testbit (marquee_next P m b) i
  = if i =? 0 then Z.testbit b (m - 1) else Z.testbit b (i - 1).
Proof.
  intros Hm (Hb & HL & Hzero & Hper) Hi.
  rewrite testbit_marquee_next by lia.
  destruct (Z.ltb_spec i 32); [|lia]. simpl.
  destruct (Z.eqb_spec i 0) as [->|Hne].
  - rewrite Z.testbit_neg_r by lia. simpl. f_equal; lia.
  - destruct (Z.lt_ge_cases (i + (m - 1)) L) as [Hlt|Hge].
    + replace (i + (m - 1)) with ((i - 1) + m) by lia.
      rewrite Hper by lia. apply orb_diag.
    + rewrite (Hzero (i + (m - 1))) by lia. apply orb_false_r.
Qed.

Lemma rotated_so_far_next m L b :
  1 <= m -> rotated_so_far m L b ->
  rotated_so_far m (Z.min (L + 1) 32) (marquee_next P m b).
Proof.
  intros Hm H. pose proof H as (Hb & HL & Hzero & Hper).
  pose proof (marquee_next_range m b) as Hr.
  split; [exact Hr|]. split; [lia|]. split.
  - intros i Hi. destruct (Z.lt_ge_cases i 32) as [Hlt|Hge].
    + rewrite (testbit_marquee_next_clean m L) by (assumption || lia).
      destruct (Z.eqb_spec i 0); [lia|]. apply Hzero. lia.
    + apply (testbit_above 32); [exact Hr | lia].
  - intros j Hj Hjm.
    rewrite !(testbit_marquee_next_clean m L) by (assumption || lia).
    destruct (Z.eqb_spec (j + m) 0); [lia|].
    destruct (Z.eqb_spec j 0) as [->|Hne]; [f_equal; lia|].
    replace (j + m - 1) with ((j - 1) + m) by lia. apply Hper; lia.
Qed.

(** The low [m] bits of the new bitmap are the low [m] bits of the old
    one, rotated. *)
Lemma marquee_next_rotl m L b :
  1 <= m -> rotated_so_far m L b ->
  marquee_next P m b mod 2 ^ m = rotl m (b mod 2 ^ m).
Proof.
  intros Hm H. pose proof H as (Hb & HL & Hzero & Hper).
  apply Z.bits_inj'. intros i Hi.
  rewrite testbit_rotl by lia.
  destruct (Z.ltb_spec i m) as [Hlt|Hge].
  - rewrite Z.mod_pow2_bits_low by lia.
    rewrite (testbit_marquee_next_clean m L) by (assumption || lia).
    rewrite !Z.mod_pow2_bits_low by lia. reflexivity.
  - rewrite Z.mod_pow2_bits_high by lia. reflexivity.
Qed.

Lemma rotated_so_far_start m b :
  1 <= m <= 32 -> 0 <= b < 2 ^ m -> rotated_so_far m m b.
Proof.
  intros Hm Hb. split; [|split; [lia|split]].
  - split; [lia|]. apply Z.lt_le_trans with (2 ^ m); [lia|].
    apply Z.pow_le_mono_r; lia.
  - intros i Hi. apply (testbit_above m); [exact Hb | lia].
  - intros j Hj Hjm. lia.
Qed.

Lemma marquee_iter_rotl m b (t : nat) :
  1 <= m <= 32 -> 0 <= b < 2 ^ m ->
  rotated_so_far m (Z.min (m + Z.of_nat t) 32) (Nat.iter t (marquee_next P m) b) /\
  Nat.iter t (marquee_next P m) b mod 2 ^ m = Nat.iter t (rotl m) b.
Proof.
  intros Hm Hb. induction t as [|t [IH1 IH2]].
  - simpl. rewrite Z.add_0_r, Z.min_l by lia.
    split; [apply rotated_so_far_start; assumption | apply Z.mod_small; assumption].
  - rewrite !Nat.iter_succ. split.
    + replace (Z.min (m + Z.of_nat (S t)) 32)
        with (Z.min (Z.min (m + Z.of_nat t) 32 + 1) 32) by lia.
      apply rotated_so_far_next; [lia | exact IH1].
    + rewrite (marquee_next_rotl m _ _ ltac:(lia) IH1), IH2. reflexivity.
Qed.

(** Only the low [m] bits of a bitmap are painted. *)
Lemma painted_low_bits n m b c :
  0 <= m -> painted n m b c = painted n m (b mod 2 ^ m) c.
Proof.
  intros Hm. apply list_eq_pointwise.
  - rewrite !length_painted. reflexivity.
  - intros j Hj. rewrite length_painted in Hj.
    rewrite !lookup_painted by lia. f_equal.
    destruct (Z.ltb_spec (Z.of_nat j) m); [|reflexivity].
    rewrite Z.mod_pow2_bits_low by lia. reflexivity.
Qed.

Lemma paint_all_bits_Z st n m b0 c0 :
  0 <= m <= n -> m <= 32 ->
  paint_all_bits P st m (painted n m b0 c0)
  = Some (painted n m (_bitmap st) (_color st)).
Proof.
  intros Hm Hm32. rewrite <- (Z2Nat.id n) by lia.
  apply paint_all_bits_spec; lia.
Qed.

(** A later tick of Marquee. *)
Lemma update_marquee_old base b :
  _ledCount base = Z.of_nat (length (_leds base)) -> 0 < _ledCount base ->
  _mode base = MODE_MARQUEE -> _newMode base = false ->
  update P (marquee_state base b)
  = Some (marquee_state base (marquee_next P (Z.min (_ledCount base) 32) b)).
Proof.
  intros Hn Hpos Hm Hnew. unfold update, marquee_state.
  cbn [_mode _newMode _ledCount _leds _bitmap set_bitmap set_leds].
  rewrite Hm, Hnew. fold (marquee_next P (Z.min (_ledCount base) 32) b).
  set (b' := marquee_next P (Z.min (_ledCount base) 32) b).
  rewrite paint_all_bits_Z by lia. reflexivity.
Qed.

Lemma ticks_marquee_old t base b :
  _ledCount base = Z.of_nat (length (_leds base)) -> 0 < _ledCount base ->
  _mode base = MODE_MARQUEE -> _newMode base = false ->
  ticks P t (marquee_state base b)
  = Some (marquee_state base
            (Nat.iter t (marquee_next P (Z.min (_ledCount base) 32)) b)).
Proof.
  intros Hn Hpos Hm Hnew. revert b. induction t as [|t IH]; intros b.
  - reflexivity.
  - cbn [ticks]. rewrite update_marquee_old by assumption.
    cbn [mbind option_bind]. rewrite IH, <- Nat.iter_succ_r. reflexivity.
Qed.

(** Marquee, tick by tick: every tick after the first replaces the bitmap
    by [marquee_next] of it and paints the strip from the new bitmap. *)
Lemma ticks_setMarquee st c b (t : nat) :
  strip_ok st -> 0 < _ledCount st ->
  let m := Z.min (_ledCount st) 32 in
  exists s, ticks P (S t) (setMarquee st c b) = Some s /\
    _bitmap s = Nat.iter t (marquee_next P m) (to_ulong b) /\
    _leds s = painted (_ledCount st) m (_bitmap s) c.
Proof.
  intros Hn Hpos m. cbn [ticks].
  rewrite update_bitmap_new by (try right; (exact Hn || reflexivity)).
  cbn [mbind option_bind].
  eexists. split.
  - apply (ticks_marquee_old t (set_newMode (setMarquee st c b) false) (to_ulong b));
      try reflexivity; assumption.
  - split; reflexivity.
Qed.

(** When the bitmap has no bit set outside of the active width, the strip
    shows the bitmap rotated once per tick. *)
Lemma marquee_rotates st c b (t : nat) :
  strip_ok st -> 0 < _ledCount st ->
  let m := Z.min (_ledCount st) 32 in
  0 <= b < 2 ^ m ->
  exists s, ticks P (S t) (setMarquee st c b) = Some s /\
    _leds s = painted (_ledCount st) m (Nat.iter t (rotl m) b) c.
Proof.
  intros Hn Hpos m Hb.
  destruct (ticks_setMarquee st c b t Hn Hpos) as (s & Hs & Hbm & Hl).
  fold m in Hbm, Hl.
  exists s. split; [exact Hs|].
  assert (Hu : to_ulong b = b).
  { apply to_ulong_small. split; [lia|].
    apply Z.lt_le_trans with (2 ^ m); [lia|]. apply Z.pow_le_mono_r; lia. }
  rewrite Hl, Hbm, Hu, painted_low_bits by lia.
  destruct (marquee_iter_rotl m b t) as [_ ->]; [lia | lia | reflexivity].
Qed.

End Marquee.

(** [0b0011] on four pixels: the lit pixels are 0 and 1, then 1 and 2,
    then 2 and 3, then 3 and 0. *)
Lemma marquee_0011 P st c :
  strip_ok st -> _ledCount st = 4 ->
  exists s1 s2 s3 s4,
    ticks P 1 (setMarquee st c 3) = Some s1 /\
    ticks P 2 (setMarquee st c 3) = Some s2 /\
    ticks P 3 (setMarquee st c 3) = Some s3 /\
    ticks P 4 (setMarquee st c 3) = Some s4 /\
    _leds s1 = [c; c; Black; Black] /\ _leds s2 = [Black; c; c; Black] /\
    _leds s3 = [Black; Black; c; c] /\ _leds s4 = [c; Black; Black; c].
Proof.
  intros Hn HN.
  assert (Hpos : 0 < _ledCount st) by lia.
  assert (Hb : 0 <= 3 < 2 ^ Z.min (_ledCount st) 32)
    by (rewrite HN; change (0 <= 3 < 16); lia).
  destruct (marquee_rotates P st c 3 0 Hn Hpos Hb) as (s1 & H1 & L1).
  destruct (marquee_rotates P st c 3 1 Hn Hpos Hb) as (s2 & H2 & L2).
  destruct (marquee_rotates P st c 3 2 Hn Hpos Hb) as (s3 & H3 & L3).
  destruct (marquee_rotates P st c 3 3 Hn Hpos Hb) as (s4 & H4 & L4).
  rewrite HN in L1, L2, L3, L4.
  exists s1, s2, s3, s4. repeat split; assumption.
Qed.

(** C5, where the code departs from it: a bit set above the active width
    leaks into the strip.  On four pixels with bitmap [0b10000] the active
    four bits are all clear, and a rotation of them lights nothing; the
    first tick indeed lights nothing, but the second tick lights pixel 1. *)
Theorem marquee_stray_bit P c :
  let s0 := setMarquee (LEDControl_new 4 (replicate 4 Black) 0) c 16 in
  exists s1 s2,
    update P s0 = Some s1 /\ update P s1 = Some s2 /\
    _leds s1 = [Black; Black; Black; Black] /\
    _leds s2 = [Black; c; Black; Black] /\
    painted 4 4 (rotl 4 (16 mod 2 ^ 4)) c = [Black; Black; Black; Black].
Proof.
  eexists _, _. split; [reflexivity|]. split; [reflexivity|].
  repeat split.
Qed.

(** * The claims on concrete strips *)

(** ** Construction *)

(** C2 (as the code has it): the constructor has no failing path.  For
    every pixel count, positive or not, construction yields an object in
    mode Off with colour black, new-mode flag set, and that pixel count. *)
Theorem construct_never_fails num_leds leds junk :
  exists a, construct num_leds leds junk = Some a /\
    _mode a = MODE_OFF /\ _color a = Black /\ _newMode a = true /\
    _ledCount a = num_leds.
Proof. eexists. split; [reflexivity|]. repeat split. Qed.

(** C2 as stated fails: a pixel count of 0, or of -5, is accepted. *)
Lemma construct_nonpositive_accepted :
  construct 0 [] 0 = Some (LEDControl_new 0 [] 0) /\
  construct (-5) [] 0 = Some (LEDControl_new (-5) [] 0).
Proof. split; reflexivity. Qed.

(** ** Breathe *)

Lemma breathe_period_32_witness :
  let P := sample_platform in
  let st := LEDControl_new 3 [Red; Red; Red] 0 in
  let s0 := setBreathe P st Red in
  (code P MODE_RUNFWD <> code P MODE_RUNREV /\ strip_ok st) /\
  (exists s1 s32,
      update P s0 = Some s1 /\ ticks P 32 s0 = Some s32 /\
      _config s32 = _config s0 /\ _curdir s32 = _curdir s0 /\
      _leds s32 = _leds s1) /\
  (forall t, is_Some (ticks P (S t) s0) /\
             ticks P (S t + 32) s0 = ticks P (S t) s0) /\
  (forall t p, (0 < p < 32)%nat -> ticks P (S t + p) s0 <> ticks P (S t) s0) /\
  (forall t, exists s s',
      ticks P t s0 = Some s /\ update P s = Some s' /\
      _config s = breathe_step t /\
      _leds s' = breathe_frame P s0 (_config s) /\
      (_config s' = _config s <-> (t mod 16 = 15)%nat) /\
      ((t mod 32 = 15)%nat -> _config s = _numdims - 1) /\
      ((t mod 32 = 31)%nat -> _config s = 0) /\
      (_config s' = _config s \/ _config s' = _config s + 1 \/
       _config s' = _config s - 1)).
Proof.
  intros P st s0. split; [split; [discriminate | reflexivity]|].
  apply (breathe_period_32 sample_platform); [discriminate | reflexivity].
Defined.

(** C1 as stated fails: 30 ticks after [setBreathe] the step is 1, not 0,
    the direction is reverse, not forward, and the strip shows the third
    level of the table, not the first. *)
Lemma breathe_not_back_after_30 :
  let P := sample_platform in
  let s0 := setBreathe P (LEDControl_new 1 [Black] 0) Red in
  exists s1 s30,
    update P s0 = Some s1 /\ ticks P 30 s0 = Some s30 /\
    _config s0 = 0 /\ _config s30 = 1 /\
    _curdir s0 = code P MODE_RUNFWD /\ _curdir s30 = code P MODE_RUNREV /\
    _leds s1 = [mkCRGB 235 0 0] /\ _leds s30 = [mkCRGB 179 0 0].
Proof.
  eexists _, _. split; [vm_compute; reflexivity|].
  split; [vm_compute; reflexivity|]. repeat split.
Qed.

(** ** Progress *)

Lemma setProgress_bar_witness :
  let P := sample_platform in
  let st := setCylon (LEDControl_new 10 (replicate 10 Red) 0) Red in
  (strip_ok st /\ 0 < _ledCount st /\
   _ledCount st * clamp_percent 50 / 100 < 32 /\ _ledCount st = 10) /\
  (_bitmap (setProgress P st Red 50) = 31 /\
   exists s1, update P (setProgress P st Red 50) = Some s1 /\
              _leds s1 = replicate 5 Red ++ replicate 5 Black) /\
  setProgress P st Red 150 = setProgress P st Red 100 /\
  setProgress P st Red (-5) = setProgress P st Red 0.
Proof.
  intros P st.
  assert (Hok : strip_ok st) by reflexivity.
  assert (Hpos : 0 < _ledCount st) by (vm_compute; reflexivity).
  assert (Hlit : _ledCount st * clamp_percent 50 / 100 < 32)
    by (vm_compute; reflexivity).
  split; [repeat split; assumption|].
  destruct (setProgress_bar P st Red) as (Hmain & Hten & Hhi & Hlo).
  split; [|split].
  - destruct (Hmain 50 Hok Hpos Hlit) as (Hb & _ & _).
    split; [exact Hb|]. apply Hten; [exact Hok | reflexivity].
  - apply Hhi. lia.
  - apply Hlo. lia.
Defined.

(** C3 as stated fails: on 33 pixels full progress asks for 33 lit
    pixels, and the tick lights one. *)
Lemma progress_33_not_full :
  let P := sample_platform in
  let st := LEDControl_new 33 (replicate 33 Black) 0 in
  33 * clamp_percent 100 / 100 = 33 /\
  exists s1, update P (setProgress P st Red 100) = Some s1 /\
             lit_indices Red (_leds s1) = [0] /\
             _leds s1 !! 32%nat = Some Black.
Proof.
  split; [reflexivity|]. eexists. split; [vm_compute; reflexivity|].
  split; reflexivity.
Qed.

Lemma setProgress_full_wraps_witness :
  let P := sample_platform in
  let st := LEDControl_new 32 (replicate 32 Red) 0 in
  (shl_wide P = shl_count_mod32 /\ strip_ok st /\ 32 <= _ledCount st /\
   _ledCount st * 100 <= 32767 /\ _ledCount st mod 32 = 0) /\
  Z.quot (mul_int P 32 100) 100 = 32 /\
  _bitmap (setProgress P st Red 100) = 0 /\
  exists s1, update P (setProgress P st Red 100) = Some s1 /\
             _leds s1 = replicate 32 Black.
Proof.
  intros P st.
  assert (Hw : shl_wide P = shl_count_mod32) by reflexivity.
  assert (Hok : strip_ok st) by reflexivity.
  assert (H32 : 32 <= _ledCount st) by (vm_compute; discriminate).
  assert (Hfit : _ledCount st * 100 <= 32767) by (vm_compute; discriminate).
  assert (H0 : _ledCount st mod 32 = 0) by reflexivity.
  split; [repeat split; assumption|].
  exact (setProgress_full_wraps P st Red Hw Hok H32 Hfit H0).
Defined.

(** C10 as stated fails for the wider strips: on 40 pixels full progress
    lights the first 8. *)
Lemma progress_40_lights_8 :
  let P := sample_platform in
  let st := LEDControl_new 40 (replicate 40 Black) 0 in
  _bitmap (setProgress P st Red 100) = 255 /\
  exists s1, update P (setProgress P st Red 100) = Some s1 /\
             lit_indices Red (_leds s1) = [0; 1; 2; 3; 4; 5; 6; 7].
Proof.
  split; [reflexivity|]. eexists. split; [vm_compute; reflexivity|].
  reflexivity.
Qed.

(** Beyond the 16-bit range the product is the board's: with 32-bit [int]s
    it is exact on 352 pixels, where full progress lights nothing, and
    wraps round to a negative number on 21474837 pixels, where [lit] is
    -21474835, the shift count 13 and the bitmap 8191. *)
Lemma progress_on_32_bit_int :
  let P := sample_platform in
  _bitmap (setProgress P (LEDControl_new 352 [] 0) Red 100) = 0 /\
  mul_int P 21474837 100 = -2147483596 /\
  _bitmap (setProgress P (LEDControl_new 21474837 [] 0) Red 100) = 8191.
Proof. repeat split. Qed.

(** ** Static modes *)

Lemma static_modes_idempotent_witness :
  let P := sample_platform in
  let st := setPattern (LEDControl_new 4 (replicate 4 Red) 0) Red 5 in
  (strip_ok st /\ (_mode st = MODE_ON \/ _mode st = MODE_BITMAP)) /\
  exists s1, update P st = Some s1 /\
    forall k, exists sk, ticks P (S k) st = Some sk /\ _leds sk = _leds s1.
Proof.
  intros P st.
  assert (Hok : strip_ok st) by reflexivity.
  assert (Hm : _mode st = MODE_ON \/ _mode st = MODE_BITMAP)
    by (right; reflexivity).
  split; [split; assumption|].
  exact (static_modes_idempotent P st Hok Hm).
Defined.

(** ** Run Forward *)

Lemma runFwd_one_pixel_witness :
  let P := sample_platform in
  let st := LEDControl_new 3 [Red; Red; Red] 0 in
  (strip_ok st /\ 0 < _ledCount st /\ Red <> Black) /\
  exists s1 sk,
    update P (setRunFwd st Red) = Some s1 /\
    _leds s1 = one_hot 3 0 Red /\
    lit_indices Red (_leds s1) = [0] /\
    ticks P 7 s1 = Some sk /\
    _leds sk = one_hot 3 1 Red /\
    lit_indices Red (_leds sk) = [1].
Proof.
  intros P st.
  assert (Hok : strip_ok st) by reflexivity.
  assert (Hpos : 0 < _ledCount st) by (vm_compute; reflexivity).
  assert (Hc : Red <> Black) by discriminate.
  split; [repeat split; assumption|].
  exact (runFwd_one_pixel P st Red 7 Hok Hpos Hc).
Defined.

(** C6 as stated fails for black: after the first tick both pixels of a
    strip of two equal the base colour. *)
Lemma runFwd_black_not_unique :
  exists s1,
    update sample_platform (setRunFwd (LEDControl_new 2 [Red; Red] 0) Black)
    = Some s1 /\
    lit_indices Black (_leds s1) = [0; 1].
Proof. eexists. split; [vm_compute; reflexivity | reflexivity]. Qed.

(** ** Rainbow *)



(** ** Cylon *)

Lemma cylon4_sequence_witness :
  let P := sample_platform in
  let st := LEDControl_new 4 (replicate 4 Black) 0 in
  (code P MODE_RUNFWD <> code P MODE_RUNREV /\ strip_ok st /\ _ledCount st = 4) /\
  forall t, exists s,
      ticks P (S t) (setCylon st Red) = Some s /\
      _leds s = one_hot 4 (cylon4_pos t) Red /\
      (Red <> Black -> lit_indices Red (_leds s) = [cylon4_pos t]).
Proof.
  intros P st.
  assert (Hd : code P MODE_RUNFWD <> code P MODE_RUNREV) by discriminate.
  assert (Hok : strip_ok st) by reflexivity.
  assert (HN : _ledCount st = 4) by reflexivity.
  split; [repeat split; assumption|].
  exact (proj1 (cylon4_sequence P Hd st Red Hok HN)).
Defined.

(** ** The dimming table *)

Lemma dimStep_in_table_witness :
  let P := sample_platform in
  let s0 := setBreathe P (LEDControl_new 2 [Black; Black] 0) Red in
  exists s1 s2,
    update P s0 = Some s1 /\ update P s1 = Some s2 /\
    reachable P s2 /\ config_in_table s2 /\ _config s2 = 2 /\
    config_in_table (setCylon s2 Red).
Proof.
  intros P s0. eexists _, _.
  split; [vm_compute; reflexivity|]. split; [vm_compute; reflexivity|].
  match goal with |- reachable ?P ?s /\ _ =>
    assert (Hr : reachable P s)
  end.
  { eapply reach_step; [eapply reach_step; [eapply reach_step;
      [apply (reach_new _ 2 [Black; Black] 0) | apply (step_setBreathe _ _ Red)]
      | apply step_update; vm_compute; reflexivity]
      | apply step_update; vm_compute; reflexivity]. }
  split; [exact Hr|].
  split; [exact (proj1 (dimStep_in_table P) _ Hr)|].
  split; [reflexivity|].
  apply (proj2 (dimStep_in_table P) _ _ (proj1 (dimStep_in_table P) _ Hr)).
  apply step_setCylon.
Defined.

(** * Further properties *)

(** ** What no call changes *)

Lemma store_length {A} (a a' : list A) i x :
  store a i x = Some a' -> length a' = length a.
Proof.
  unfold store. destruct ((0 <=? i) && (i <? Z.of_nat (length a))); [|discriminate].
  intros [= <-]. apply length_insert.
Qed.

(** A loop keeps what each of its rounds keeps. *)
Lemma for_loop_preserves {A} (Q : A -> Prop) n i step body (a a' : A) :
  (forall j x x', Q x -> body j x = Some x' -> Q x') ->
  Q a -> for_loop n i step body a = Some a' -> Q a'.
Proof.
  intros Hb. revert i a. induction n as [|n IH]; intros i a Ha H.
  - injection H as <-. exact Ha.
  - simpl in H. apply bind_Some in H as (a1 & H1 & H). eauto.
Qed.

Lemma fill_solid_length leds n c leds' :
  fill_solid leds n c = Some leds' -> length leds' = length leds.
Proof.
  unfold fill_solid. apply (for_loop_preserves (fun l => length l = length leds)).
  - intros j x x' Hx Hs. apply store_length in Hs. congruence.
  - reflexivity.
Qed.

Section Strip.

Variable P : Platform.

Lemma paint_set_bits_length st m leds leds' :
  paint_set_bits P st m leds = Some leds' -> length leds' = length leds.
Proof.
  unfold paint_set_bits. apply (for_loop_preserves (fun l => length l = length leds)).
  - intros j x x' Hx Hs. destruct (bit_set P (_bitmap st) j).
    + apply store_length in Hs. congruence.
    + congruence.
  - reflexivity.
Qed.

Lemma paint_all_bits_length st m leds leds' :
  paint_all_bits P st m leds = Some leds' -> length leds' = length leds.
Proof.
  unfold paint_all_bits. apply (for_loop_preserves (fun l => length l = length leds)).
  - intros j x x' Hx Hs. destruct (bit_set P (_bitmap st) j);
      apply store_length in Hs; congruence.
  - reflexivity.
Qed.

Lemma load_rainbow_length st delta leds' :
  load_rainbow P st delta = Some leds' -> length leds' = length (_leds st).
Proof.
  unfold load_rainbow.
  apply (for_loop_preserves (fun l => length l = length (_leds st))).
  - intros j x x' Hx Hs. apply store_length in Hs. congruence.
  - reflexivity.
Qed.

Lemma shiftFwd_same_strip st st' : shiftFwd st = Some st' -> same_strip st st'.
Proof.
  unfold shiftFwd. intros H.
  apply bind_Some in H as (last & _ & H).
  apply bind_Some in H as (l1 & H1 & H).
  apply bind_Some in H as (l2 & H2 & H). injection H as <-.
  split; [reflexivity|]. simpl. apply store_length in H2. rewrite H2.
  revert H1. apply (for_loop_preserves (fun l => length l = length (_leds st))).
  - intros j x x' Hx Hs. apply bind_Some in Hs as (y & _ & Hs).
    apply store_length in Hs. congruence.
  - reflexivity.
Qed.

Lemma shiftRev_same_strip st st' : shiftRev st = Some st' -> same_strip st st'.
Proof.
  unfold shiftRev. intros H.
  apply bind_Some in H as (first & _ & H).
  apply bind_Some in H as (l1 & H1 & H).
  apply bind_Some in H as (l2 & H2 & H). injection H as <-.
  split; [reflexivity|]. simpl. apply store_length in H2. rewrite H2.
  revert H1. apply (for_loop_preserves (fun l => length l = length (_leds st))).
  - intros j x x' Hx Hs. apply bind_Some in Hs as (y & _ & Hs).
    apply store_length in Hs. congruence.
  - reflexivity.
Qed.

(** Splits a successful tick into its branches and collects what each
    step of the branch did to the length of the array. *)
Ltac tick_cases H :=
  repeat first
    [ progress simplify_option_eq
    | match type of H with
      | context [if ?b then _ else _] => destruct b eqn:?
      end
    | match goal with
      | H' : fill_solid _ _ _ = Some _ |- _ => apply fill_solid_length in H'
      | H' : store _ _ _ = Some _ |- _ => apply store_length in H'
      | H' : paint_set_bits _ _ _ _ = Some _ |- _ => apply paint_set_bits_length in H'
      | H' : paint_all_bits _ _ _ _ = Some _ |- _ => apply paint_all_bits_length in H'
      | H' : load_rainbow _ _ _ = Some _ |- _ => apply load_rainbow_length in H'
      | H' : shiftFwd _ = Some _ |- _ => apply shiftFwd_same_strip in H'
      | H' : shiftRev _ = Some _ |- _ => apply shiftRev_same_strip in H'
      | H' : (if ?b then _ else _) = Some _ |- _ => destruct b eqn:?
      end ].

(** A tick that returns leaves the pixel count and the length of the
    array as they were. *)
Lemma update_same_strip st st' : update P st = Some st' -> same_strip st st'.
Proof.
  unfold update. intros H.
  destruct (_mode st); destruct (_newMode st) eqn:Hnew; tick_cases H;
    try assumption; unfold same_strip; simpl in *; split; congruence.
Qed.

Lemma op_step_same_strip st st' : op_step P st st' -> same_strip st st'.
Proof.
  destruct 1; try (split; reflexivity). apply update_same_strip. assumption.
Qed.

(** X1: over any sequence of setter calls and ticks that return, the pixel
    count and the length of the array stay what they were. *)
Theorem calls_same_strip st st' : calls P st st' -> same_strip st st'.
Proof.
  induction 1 as [st | st st1 st' Hop _ IH]; [split; reflexivity|].
  apply op_step_same_strip in Hop. destruct Hop as [H1 H2], IH as [H3 H4].
  split; congruence.
Qed.

(** *** The new-mode flag and the mode *)

(** X2: a tick that returns leaves the new-mode flag clear, in every mode
    but [MODE_UNDEF], where it leaves the whole object alone. *)
Theorem update_clears_newMode st st' :
  update P st = Some st' ->
  (_mode st = MODE_UNDEF -> st' = st) /\
  (_mode st <> MODE_UNDEF -> _newMode st' = false).
Proof.
  unfold update. intros H.
  destruct (_mode st) eqn:Hm; destruct (_newMode st) eqn:Hnew;
    (split; intros Hd; [try discriminate Hd | try congruence]);
    split_update H; try reflexivity; try assumption; try congruence.
Qed.

Lemma update_mode_of st st' :
  update P st = Some st' ->
  _mode st' =
    match _mode st, _newMode st with
    | MODE_RAINBF, true => MODE_RUNFWD
    | MODE_RAINBR, true => MODE_RUNREV
    | m, _ => m
    end.
Proof.
  unfold update. intros H.
  destruct (_mode st) eqn:Hm; destruct (_newMode st) eqn:Hnew;
    split_update H; simpl; congruence.
Qed.

(** X3: a tick never changes the mode that [getMode] reports, but for the
    first tick of the two Rainbow modes, which hand over to the Run mode
    of their direction. *)
Theorem mode_after_tick st st' :
  update P st = Some st' ->
  getMode P st' =
    match _mode st, _newMode st with
    | MODE_RAINBF, true => code P MODE_RUNFWD
    | MODE_RAINBR, true => code P MODE_RUNREV
    | _, _ => getMode P st
    end.
Proof.
  intros H. apply update_mode_of in H. unfold getMode. rewrite H.
  destruct (_mode st), (_newMode st); reflexivity.
Qed.

End Strip.

(** ** No tick leaves the array *)

Section Safety.

Variable P : Platform.

Lemma paint_all_bits_total st m leds :
  0 <= m <= Z.of_nat (length leds) ->
  exists leds', paint_all_bits P st m leds = Some leds'.
Proof.
  intros Hm. unfold paint_all_bits.
  destruct (for_loop_rule (fun _ l => length l = length leds) (Z.to_nat m) 0 1
              (fun i l => if bit_set P (_bitmap st) i then store l i (_color st)
                          else store l i Black) leds)
    as (l' & Hl & _); [reflexivity | | eauto].
  intros k x Hk Hx.
  replace (0 + Z.of_nat k * 1) with (Z.of_nat k) by lia.
  destruct (bit_set P (_bitmap st) (Z.of_nat k));
    rewrite store_nat by lia; eexists; (split; [reflexivity|]);
    rewrite length_insert; exact Hx.
Qed.

(** On a well-formed object every tick returns. *)
Lemma update_total st : well_formed st -> exists st', update P st = Some st'.
Proof.
  intros (Hn & Hpos & Hc).
  destruct (_mode st) eqn:Hm; destruct (_newMode st) eqn:Hnew.
  all: try (unfold update; rewrite Hm; try rewrite Hnew; eauto; fail).
  - unfold update. rewrite Hm, Hnew, fill_solid_all by exact Hn. eauto.
  - rewrite update_on_new by assumption. eauto.
  - rewrite update_run_fwd_new by assumption. eauto.
  - rewrite update_run_fwd by assumption. eauto.
  - unfold update. rewrite Hm, Hnew, fill_solid_all by exact Hn.
    cbn [mbind option_bind].
    replace (_ledCount st - 1) with (Z.of_nat (length (_leds st) - 1))
      by (unfold strip_ok in Hn; lia).
    rewrite store_nat by (rewrite length_replicate; unfold strip_ok in Hn; lia).
    eauto.
  - rewrite update_run_rev by assumption. eauto.
  - rewrite (proj1 (update_rainbow_new P st Hn Hpos Hnew) Hm). eauto.
  - unfold update. rewrite Hm, Hnew.
    destruct (Z.eqb_spec (_ledCount st) 0); [lia | eauto].
  - rewrite (proj2 (update_rainbow_new P st Hn Hpos Hnew) Hm). eauto.
  - unfold update. rewrite Hm, Hnew.
    destruct (Z.eqb_spec (_ledCount st) 0); [lia | eauto].
  - unfold update. rewrite Hm, Hnew, fill_solid_all by exact Hn.
    cbn [mbind option_bind]. rewrite light_first by assumption. eauto.
  - unfold update. rewrite Hm, Hnew.
    destruct (_curdir st =? code P MODE_RUNFWD).
    + replace (_ledCount st - 1) with (Z.of_nat (length (_leds st) - 1))
        by (unfold strip_ok in Hn; lia).
      rewrite load_nat.
      destruct (lookup_in_range (_leds st) (length (_leds st) - 1)) as [x ->];
        [unfold strip_ok in Hn; lia|].
      cbn [mbind option_bind].
      destruct (CRGB_eqb x (_color st)); [eauto|].
      rewrite shiftFwd_spec by assumption. eauto.
    + rewrite (load_nat _ 0).
      destruct (lookup_in_range (_leds st) 0) as [x ->];
        [unfold strip_ok in Hn; lia|].
      cbn [mbind option_bind].
      destruct (CRGB_eqb x (_color st)); [eauto|].
      rewrite shiftRev_spec by assumption. eauto.
  - rewrite update_bitmap_new by auto. eauto.
  - rewrite update_bitmap_new by auto. eauto.
  - unfold update. rewrite Hm, Hnew.
    destruct (paint_all_bits_total
                (set_bitmap st
                   (Z.lor (shl_ul P (_bitmap st) 1)
                      (shr_ul P (_bitmap st)
                         (to_ulong (Z.min (_ledCount st) 32 - 1)))))
                (Z.min (_ledCount st) 32) (_leds st)) as [l Hl];
      [unfold strip_ok in Hn; lia|].
    cbn [_ledCount _leds set_bitmap] in *. rewrite Hl. eauto.
  - unfold update. rewrite Hm, Hnew. cbn [_config set_config].
    rewrite (load_dimming 0) by (unfold _numdims; lia).
    cbn [mbind option_bind _leds _ledCount set_config set_curdir set_newMode].
    rewrite fill_solid_all by exact Hn. cbn [mbind option_bind].
    repeat match goal with |- context [if ?b then _ else _] => destruct b end;
      eauto.
  - unfold update. rewrite Hm, Hnew.
    rewrite (load_dimming (_config st)) by exact Hc.
    cbn [mbind option_bind]. rewrite fill_solid_all by exact Hn.
    cbn [mbind option_bind].
    repeat match goal with |- context [if ?b then _ else _] => destruct b end;
      eauto.
Qed.

Lemma op_step_well_formed st st' :
  well_formed st -> op_step P st st' -> well_formed st'.
Proof.
  intros (Hn & Hpos & Hc) Hop.
  destruct (op_step_same_strip P st st' Hop) as [H1 H2].
  unfold well_formed, strip_ok in *. rewrite H1, H2.
  split; [exact Hn|]. split; [exact Hpos|].
  unfold config_in_table in *.
  destruct Hop as [| | | | | | | | | |st st' Hu]; simpl;
    try assumption; try (unfold _numdims; lia).
  destruct (_mode st) eqn:Hm;
    try (erewrite update_config_other by (eassumption || congruence);
         assumption).
  eapply update_config_breathe; eassumption.
Qed.

Lemma new_well_formed (leds : list CRGB) junk :
  leds <> [] -> well_formed (LEDControl_new (Z.of_nat (length leds)) leds junk).
Proof.
  intros Hl. split; [reflexivity|]. split.
  - simpl. destruct leds; [congruence | simpl; lia].
  - unfold config_in_table, _numdims. simpl. lia.
Qed.

(** X4: an object built on an array of at least one pixel, with the length
    of the array as its pixel count, never reads or writes outside of the
    array: after any setter calls and ticks, in any order and with any
    arguments, the next tick returns, and so does any number of ticks. *)
Theorem ticks_never_leave_the_array (leds : list CRGB) junk st (n : nat) :
  leds <> [] ->
  calls P (LEDControl_new (Z.of_nat (length leds)) leds junk) st ->
  exists st', ticks P n st = Some st' /\ length (_leds st') = length leds.
Proof.
  intros Hl Hcalls.
  assert (Hwf : well_formed st /\ length (_leds st) = length leds).
  { pose proof (new_well_formed leds junk Hl) as H0.
    remember (LEDControl_new (Z.of_nat (length leds)) leds junk) as s0 eqn:E.
    assert (Hlen : length (_leds s0) = length leds) by (subst s0; reflexivity).
    clear E. induction Hcalls as [s | s s1 s2 Hop _ IH]; [auto|].
    apply IH; [eapply op_step_well_formed; eassumption|].
    destruct (op_step_same_strip P _ _ Hop) as [_ H2]. congruence. }
  clear Hcalls. destruct Hwf as [Hwf Hlen]. revert st Hwf Hlen.
  induction n as [|n IH]; intros st Hwf Hlen; [eauto|].
  destruct (update_total st Hwf) as [s1 Hu].
  destruct (IH s1) as (s' & Ht & Hl').
  - eapply op_step_well_formed; [exact Hwf | apply step_update; exact Hu].
  - destruct (update_same_strip P _ _ Hu) as [_ H2]. congruence.
  - exists s'. split; [|exact Hl']. simpl. rewrite Hu. exact Ht.
Qed.

End Safety.

(** ** Branches the code calls impossible *)

Section Impossible.

Variable P : Platform.

(** X5: the two branches the code marks as not to happen are never taken.
    No reachable object is in [MODE_UNDEF], and none is in a Rainbow mode
    with the new-mode flag clear, which is the "Should never get here"
    branch of [update].  Mode Off is never entered again either: only the
    constructor sets it. *)
Theorem impossible_branches st :
  reachable P st ->
  _mode st <> MODE_UNDEF /\
  (_mode st = MODE_RAINBF \/ _mode st = MODE_RAINBR -> _newMode st = true) /\
  (forall st', op_step P st st' -> _mode st' = MODE_OFF -> _mode st = MODE_OFF).
Proof.
  intros Hr.
  assert (Hlast : forall s s', op_step P s s' -> _mode s' = MODE_OFF ->
                               _mode s = MODE_OFF).
  { intros s s' Hop Hoff. destruct Hop as [| | | | | | | | | |s s' Hu];
      try discriminate Hoff.
    apply update_mode_of in Hu. rewrite Hoff in Hu.
    destruct (_mode s), (_newMode s); congruence. }
  split; [|split; [|exact (Hlast st)]].
  - induction Hr as [n leds junk | st st' _ IH Hop]; [discriminate|].
    destruct Hop as [| | | | | | | | | |st st' Hu]; try discriminate.
    apply update_mode_of in Hu. rewrite Hu.
    destruct (_mode st), (_newMode st); congruence.
  - induction Hr as [n leds junk | st st' _ IH Hop];
      [intros [H|H]; discriminate H|].
    destruct Hop as [| | | | | | | | | |st st' Hu];
      try (intros [H|H]; (discriminate H || reflexivity)).
    intros Hm. pose proof (update_mode_of P _ _ Hu) as Hmode.
    destruct (_mode st) eqn:Em; destruct (_newMode st) eqn:En;
      try (rewrite Hmode in Hm; destruct Hm; discriminate);
      try (assert (false = true) by (apply IH; auto); discriminate).
Qed.

End Impossible.

(** ** What the static modes show *)

Section Shown.

Variable P : Platform.

(** X6: the first tick of a new object turns every pixel black, and the
    ticks after it change nothing. *)
Theorem new_object_goes_dark (leds : list CRGB) junk (k : nat) :
  exists s1,
    update P (LEDControl_new (Z.of_nat (length leds)) leds junk) = Some s1 /\
    _leds s1 = replicate (length leds) Black /\
    ticks P k s1 = Some s1.
Proof.
  eexists. split.
  - unfold update. simpl. rewrite fill_solid_all by reflexivity. reflexivity.
  - split; [reflexivity|]. induction k as [|k IH]; [reflexivity|].
    simpl. exact IH.
Qed.

(** X7: whatever the object did before, the tick after [setOneColor]
    shows the colour on every pixel. *)
Theorem setOneColor_shown st c :
  strip_ok st ->
  exists s1, update P (setOneColor st c) = Some s1 /\
             _leds s1 = replicate (length (_leds st)) c.
Proof.
  intros Hn. rewrite update_on_new by (exact Hn || reflexivity).
  eexists. split; reflexivity.
Qed.

(** X8: the tick after [setPattern] shows the colour on pixel [i] when [i]
    is below 32 and bit [i] of the bitmap is set, and black on every other
    pixel: what the bitmap says beyond the strip is ignored, and a strip
    longer than 32 pixels stays black from pixel 32 on. *)
Theorem setPattern_shown st c bitmap :
  strip_ok st -> 0 <= bitmap < 2 ^ 32 ->
  exists s1, update P (setPattern st c bitmap) = Some s1 /\
    length (_leds s1) = length (_leds st) /\
    forall i : nat, (i < length (_leds st))%nat ->
      _leds s1 !! i
      = Some (if (Z.of_nat i <? 32) && Z.testbit bitmap (Z.of_nat i)
              then c else Black).
Proof.
  intros Hn Hb. rewrite update_bitmap_new by (exact Hn || reflexivity || auto).
  eexists. split; [reflexivity|].
  cbn [_leds set_newMode set_leds].
  change (_ledCount (setPattern st c bitmap)) with (_ledCount st).
  change (_color (setPattern st c bitmap)) with c.
  change (_bitmap (setPattern st c bitmap)) with (to_ulong bitmap).
  rewrite to_ulong_small by exact Hb. unfold strip_ok in Hn.
  split; [rewrite length_painted; lia|].
  intros i Hi. rewrite lookup_painted by lia. f_equal.
  destruct (Z.ltb_spec (Z.of_nat i) 32);
    destruct (Z.ltb_spec (Z.of_nat i) (Z.min (_ledCount st) 32));
    try reflexivity; lia.
Qed.

(** *** The progress bar on strips of up to 31 pixels *)

Lemma update_setProgress st c percent :
  strip_ok st -> 0 < _ledCount st < 32 ->
  update P (setProgress P st c percent)
  = Some (set_newMode
            (set_leds (setProgress P st c percent)
               (progress_bar (_ledCount st)
                  (_ledCount st * clamp_percent percent / 100) c))
            false).
Proof.
  intros Hn HN.
  destruct (lit_bounds (_ledCount st) percent) as (Hq & Hl0 & HlN); [lia|].
  rewrite update_bitmap_new by (exact Hn || reflexivity || auto).
  do 3 f_equal.
  change (_ledCount (setProgress P st c percent)) with (_ledCount st).
  change (_color (setProgress P st c percent)) with c.
  rewrite setProgress_lit. cbn [_bitmap set_bitmap].
  rewrite mul_int_exact by (unfold clamp_percent; nia).
  rewrite Hq, ones_bitmap by lia. apply painted_ones; lia.
Qed.

(** X9: on a strip of up to 31 pixels the bar never shrinks when the
    percentage grows: the pixels lit for [p] are lit for every [q >= p].
    At 0 or less no pixel is lit, at 100 or more all are. *)
Theorem progress_grows st c p q :
  strip_ok st -> 0 < _ledCount st < 32 -> p <= q ->
  exists sp sq lp lq,
    update P (setProgress P st c p) = Some sp /\
    update P (setProgress P st c q) = Some sq /\
    _leds sp = progress_bar (_ledCount st) lp c /\
    _leds sq = progress_bar (_ledCount st) lq c /\
    0 <= lp <= lq /\ lq <= _ledCount st /\
    (q <= 0 -> lq = 0) /\ (100 <= p -> lp = _ledCount st).
Proof.
  intros Hn HN Hpq.
  exists (set_newMode (set_leds (setProgress P st c p)
            (progress_bar (_ledCount st)
               (_ledCount st * clamp_percent p / 100) c)) false),
         (set_newMode (set_leds (setProgress P st c q)
            (progress_bar (_ledCount st)
               (_ledCount st * clamp_percent q / 100) c)) false),
         (_ledCount st * clamp_percent p / 100),
         (_ledCount st * clamp_percent q / 100).
  split; [apply update_setProgress; assumption|].
  split; [apply update_setProgress; assumption|].
  split; [reflexivity|]. split; [reflexivity|].
  destruct (lit_bounds (_ledCount st) p) as (_ & Hp0 & HpN); [lia|].
  destruct (lit_bounds (_ledCount st) q) as (_ & Hq0 & HqN); [lia|].
  split; [split; [exact Hp0|]|split; [exact HqN|split]].
  - apply Z.div_le_mono; [lia|]. unfold clamp_percent. nia.
  - intros Hq. unfold clamp_percent.
    replace (Z.max 0 (Z.min 100 q)) with 0 by lia.
    rewrite Z.mul_0_r. reflexivity.
  - intros Hp. unfold clamp_percent.
    replace (Z.max 0 (Z.min 100 p)) with 100 by lia.
    apply Z.div_mul. lia.
Qed.

End Shown.

(** ** More on the shifts *)

Lemma shifted_rev_one_hot n i c :
  0 <= i < n -> shifted_rev (one_hot n i c) = one_hot n ((i - 1) mod n) c.
Proof.
  intros Hi. pose proof (Z.mod_pos_bound (i - 1) n ltac:(lia)) as Hm.
  apply list_eq_pointwise.
  - rewrite length_shifted_rev, !length_one_hot. reflexivity.
  - intros j Hj. rewrite length_shifted_rev, length_one_hot in Hj.
    rewrite lookup_shifted_rev by (rewrite length_one_hot; exact Hj).
    rewrite length_one_hot, !lookup_one_hot by (try destruct (decide _); lia).
    f_equal.
    destruct (decide (i = 0)) as [->|Hne].
    + assert (E : (0 - 1) mod n = n - 1).
      { rewrite <- (Z_mod_plus_full (0 - 1) 1 n).
        replace (0 - 1 + 1 * n) with (n - 1) by lia. apply Z.mod_small. lia. }
      rewrite E.
      repeat (destruct (decide _)); try reflexivity; lia.
    + rewrite Z.mod_small by lia.
      repeat (destruct (decide _)); try reflexivity; lia.
Qed.

Lemma iter_shifted_rev_one_hot n i c (k : nat) :
  0 <= i < n ->
  Nat.iter k shifted_rev (one_hot n i c) = one_hot n ((i - Z.of_nat k) mod n) c.
Proof.
  intros Hi. induction k as [|k IH].
  - simpl. rewrite Z.sub_0_r, Z.mod_small by lia. reflexivity.
  - simpl. rewrite IH, shifted_rev_one_hot by (apply Z.mod_pos_bound; lia).
    rewrite Zminus_mod_idemp_l. f_equal. f_equal. lia.
Qed.

Lemma shifted_rev_fwd l : shifted_rev (shifted_fwd l) = l.
Proof.
  apply list_eq_pointwise.
  - rewrite length_shifted_rev, length_shifted_fwd. reflexivity.
  - intros j Hj. rewrite length_shifted_rev, length_shifted_fwd in Hj.
    rewrite lookup_shifted_rev by (rewrite length_shifted_fwd; exact Hj).
    rewrite length_shifted_fwd.
    rewrite lookup_shifted_fwd by (destruct (decide _); lia).
    f_equal. repeat (destruct (decide _)); lia.
Qed.

Lemma shifted_fwd_rev l : shifted_fwd (shifted_rev l) = l.
Proof.
  apply list_eq_pointwise.
  - rewrite length_shifted_fwd, length_shifted_rev. reflexivity.
  - intros j Hj. rewrite length_shifted_fwd, length_shifted_rev in Hj.
    rewrite lookup_shifted_fwd by (rewrite length_shifted_rev; exact Hj).
    rewrite length_shifted_rev.
    rewrite lookup_shifted_rev by (destruct (decide _); lia).
    f_equal. repeat (destruct (decide _)); lia.
Qed.

(** The pixel at [j] after [k] forward shifts is the one that was [k]
    places before it, around the strip. *)
Lemma lookup_iter_shifted_fwd l (k j : nat) :
  (j < length l)%nat ->
  Nat.iter k shifted_fwd l !! j
  = l !! Z.to_nat ((Z.of_nat j - Z.of_nat k) mod Z.of_nat (length l)).
Proof.
  intros Hj. revert j Hj. induction k as [|k IH]; intros j Hj.
  - simpl. rewrite Z.sub_0_r, Z.mod_small, Nat2Z.id by lia. reflexivity.
  - assert (Hlen : length (Nat.iter k shifted_fwd l) = length l).
    { clear. induction k as [|k IHk]; [reflexivity|].
      simpl. rewrite length_shifted_fwd. exact IHk. }
    simpl. rewrite lookup_shifted_fwd by lia. rewrite Hlen.
    rewrite IH by (destruct (decide _); lia). f_equal. f_equal.
    destruct (decide (j = 0%nat)) as [->|Hne].
    + replace (Z.of_nat (length l - 1) - Z.of_nat k)
        with (Z.of_nat 0 - Z.of_nat (S k) + 1 * Z.of_nat (length l)) by lia.
      apply Z_mod_plus_full.
    + f_equal. lia.
Qed.

Lemma lookup_iter_shifted_rev l (k j : nat) :
  (j < length l)%nat ->
  Nat.iter k shifted_rev l !! j
  = l !! Z.to_nat ((Z.of_nat j + Z.of_nat k) mod Z.of_nat (length l)).
Proof.
  intros Hj. revert j Hj. induction k as [|k IH]; intros j Hj.
  - simpl. rewrite Z.add_0_r, Z.mod_small, Nat2Z.id by lia. reflexivity.
  - assert (Hlen : length (Nat.iter k shifted_rev l) = length l).
    { clear. induction k as [|k IHk]; [reflexivity|].
      simpl. rewrite length_shifted_rev. exact IHk. }
    simpl. rewrite lookup_shifted_rev by lia. rewrite Hlen.
    rewrite IH by (destruct (decide _); lia). f_equal. f_equal.
    destruct (decide (j = (length l - 1)%nat)) as [->|Hne].
    + replace (Z.of_nat (length l - 1) + Z.of_nat (S k))
        with (Z.of_nat 0 + Z.of_nat k + 1 * Z.of_nat (length l)) by lia.
      symmetry. apply Z_mod_plus_full.
    + f_equal. lia.
Qed.

Lemma length_iter_shifted_fwd l k : length (Nat.iter k shifted_fwd l) = length l.
Proof.
  induction k as [|k IH]; [reflexivity|]. simpl. rewrite length_shifted_fwd. exact IH.
Qed.

Lemma length_iter_shifted_rev l k : length (Nat.iter k shifted_rev l) = length l.
Proof.
  induction k as [|k IH]; [reflexivity|]. simpl. rewrite length_shifted_rev. exact IH.
Qed.

(** As many shifts as there are pixels bring every pixel home. *)
Lemma iter_shifted_fwd_round l : Nat.iter (length l) shifted_fwd l = l.
Proof.
  apply list_eq_pointwise; [apply length_iter_shifted_fwd|].
  intros j Hj. rewrite length_iter_shifted_fwd in Hj.
  rewrite lookup_iter_shifted_fwd by exact Hj. f_equal.
  replace (Z.of_nat j - Z.of_nat (length l))
    with (Z.of_nat j + (-1) * Z.of_nat (length l)) by lia.
  rewrite Z_mod_plus_full, Z.mod_small, Nat2Z.id by lia. reflexivity.
Qed.

Lemma iter_shifted_rev_round l : Nat.iter (length l) shifted_rev l = l.
Proof.
  apply list_eq_pointwise; [apply length_iter_shifted_rev|].
  intros j Hj. rewrite length_iter_shifted_rev in Hj.
  rewrite lookup_iter_shifted_rev by exact Hj. f_equal.
  replace (Z.of_nat j + Z.of_nat (length l))
    with (Z.of_nat j + 1 * Z.of_nat (length l)) by lia.
  rewrite Z_mod_plus_full, Z.mod_small, Nat2Z.id by lia. reflexivity.
Qed.

Lemma shifted_fwd_perm l : Permutation (shifted_fwd l) l.
Proof.
  unfold shifted_fwd. rewrite Permutation_app_comm, take_drop. reflexivity.
Qed.

Lemma shifted_rev_perm l : Permutation (shifted_rev l) l.
Proof.
  unfold shifted_rev. rewrite Permutation_app_comm, take_drop. reflexivity.
Qed.

Section Moving.

Variable P : Platform.

(** X10: [shiftFwd] and [shiftRev] undo each other, whatever the strip
    shows. *)
Theorem shifts_undo_each_other st :
  strip_ok st -> 0 < _ledCount st ->
  (exists s1, shiftFwd st = Some s1 /\ shiftRev s1 = Some st) /\
  (exists s1, shiftRev st = Some s1 /\ shiftFwd s1 = Some st).
Proof.
  intros Hn Hpos. split; eexists; (split; [|]).
  - apply shiftFwd_spec; assumption.
  - rewrite shiftRev_spec.
    + cbn [_leds set_leds]. rewrite shifted_rev_fwd.
      destruct st; reflexivity.
    + unfold strip_ok in *. cbn. rewrite length_shifted_fwd. exact Hn.
    + exact Hpos.
  - apply shiftRev_spec; assumption.
  - rewrite shiftFwd_spec.
    + cbn [_leds set_leds]. rewrite shifted_fwd_rev.
      destruct st; reflexivity.
    + unfold strip_ok in *. cbn. rewrite length_shifted_rev. exact Hn.
    + exact Hpos.
Qed.

(** X11: mirror image of Run Forward.  For a base colour other than black,
    the first tick after [setRunRev] leaves the colour on the last pixel
    only, and after [k] further ticks the only pixel that shows it is
    pixel [(N - 1 - k) mod N]. *)
Theorem runRev_one_pixel st c (k : nat) :
  strip_ok st -> 0 < _ledCount st -> c <> Black ->
  exists s1 sk,
    update P (setRunRev st c) = Some s1 /\
    _leds s1 = one_hot (_ledCount st) (_ledCount st - 1) c /\
    ticks P k s1 = Some sk /\
    _leds sk
    = one_hot (_ledCount st) ((_ledCount st - 1 - Z.of_nat k) mod _ledCount st) c /\
    lit_indices c (_leds sk) = [(_ledCount st - 1 - Z.of_nat k) mod _ledCount st].
Proof.
  intros Hn Hpos Hc.
  pose proof (Z.mod_pos_bound (_ledCount st - 1 - Z.of_nat k) (_ledCount st) Hpos).
  assert (H1 : update P (setRunRev st c)
               = Some (set_newMode (set_leds (setRunRev st c)
                         (one_hot (_ledCount st) (_ledCount st - 1) c)) false)).
  { unfold update. cbn [setRunRev _mode _newMode set_color set_mode set_newMode].
    change (fill_solid _ _ Black) with (fill_solid (_leds st) (_ledCount st) Black).
    rewrite fill_solid_all by exact Hn. cbn [mbind option_bind].
    change (store _ _ _) with
      (store (replicate (length (_leds st)) Black) (_ledCount st - 1) c).
    replace (_ledCount st - 1) with (Z.of_nat (length (_leds st) - 1)) at 1
      by (unfold strip_ok in Hn; lia).
    rewrite store_nat by (rewrite length_replicate; unfold strip_ok in Hn; lia).
    cbn [mbind option_bind]. unfold one_hot. do 3 f_equal.
    unfold strip_ok in Hn. rewrite Hn, Nat2Z.id. f_equal. lia. }
  eexists _, _. split; [exact H1|]. split; [reflexivity|]. split.
  - apply ticks_run_rev; try reflexivity; [|exact Hpos].
    unfold strip_ok. cbn. rewrite length_one_hot. lia.
  - cbn [_leds set_leds set_newMode].
    rewrite iter_shifted_rev_one_hot by lia.
    split; [reflexivity|]. apply lit_indices_one_hot; assumption.
Qed.

(** X12: a running strip comes round.  Once a Run mode is under way, as many
    ticks as the strip has pixels bring the object back to the very state
    it was in, whatever the pixels show; so a rainbow is back in place
    every N ticks. *)
Theorem run_comes_round st :
  strip_ok st -> 0 < _ledCount st -> _newMode st = false ->
  _mode st = MODE_RUNFWD \/ _mode st = MODE_RUNREV ->
  ticks P (length (_leds st)) st = Some st.
Proof.
  intros Hn Hpos Hnew [Hm|Hm].
  - rewrite ticks_run_fwd by assumption.
    rewrite iter_shifted_fwd_round. destruct st; reflexivity.
  - rewrite ticks_run_rev by assumption.
    rewrite iter_shifted_rev_round. destruct st; reflexivity.
Qed.

(** X13: after their first tick the moving modes (Run Forward, Run Reverse,
    Cylon) only move pixels: a tick leaves on the strip the colours that
    were there, each as often as before. *)
Theorem moving_modes_permute st st' :
  strip_ok st -> 0 < _ledCount st -> _newMode st = false ->
  _mode st = MODE_RUNFWD \/ _mode st = MODE_RUNREV \/ _mode st = MODE_CYLON ->
  update P st = Some st' -> Permutation (_leds st') (_leds st).
Proof.
  intros Hn Hpos Hnew Hm Hu. unfold update in Hu.
  destruct Hm as [Hm|[Hm|Hm]]; rewrite Hm, Hnew in Hu.
  - rewrite shiftFwd_spec in Hu by assumption. injection Hu as <-.
    apply shifted_fwd_perm.
  - rewrite shiftRev_spec in Hu by assumption. injection Hu as <-.
    apply shifted_rev_perm.
  - destruct (_curdir st =? code P MODE_RUNFWD).
    + apply bind_Some in Hu as (x & _ & Hu).
      destruct (CRGB_eqb x (_color st)); [injection Hu as <-; reflexivity|].
      rewrite shiftFwd_spec in Hu by assumption. injection Hu as <-.
      apply shifted_fwd_perm.
    + apply bind_Some in Hu as (x & _ & Hu).
      destruct (CRGB_eqb x (_color st)); [injection Hu as <-; reflexivity|].
      rewrite shiftRev_spec in Hu by assumption. injection Hu as <-.
      apply shifted_rev_perm.
Qed.

End Moving.

(** ** Cylon on any strip *)

Lemma load_one_hot n i c j :
  0 <= i < n -> 0 <= j < n ->
  load (one_hot n i c) j = Some (if decide (j = i) then c else Black).
Proof.
  intros Hi Hj. rewrite <- (Z2Nat.id j) at 1 by lia.
  rewrite load_nat, lookup_one_hot by lia. f_equal.
  destruct (decide (Z.to_nat j = Z.to_nat i)), (decide (j = i));
    try reflexivity; lia.
Qed.

Lemma succ_mod a m :
  0 < m -> 0 <= a ->
  (a + 1) mod m = if a mod m =? m - 1 then 0 else a mod m + 1.
Proof.
  intros Hm Ha. pose proof (Z.mod_pos_bound a m Hm) as Hr.
  rewrite <- Z.add_mod_idemp_l by lia.
  destruct (Z.eqb_spec (a mod m) (m - 1)) as [E|E].
  - rewrite E. replace (m - 1 + 1) with m by lia. apply Z_mod_same_full.
  - apply Z.mod_small. lia.
Qed.

Lemma cylon_pos_range n t : 0 < n -> 0 <= cylon_pos n t < n.
Proof.
  intros Hn. unfold cylon_pos.
  pose proof (Z.mod_pos_bound (Z.of_nat t) (2 * n) ltac:(lia)).
  destruct (Z.ltb_spec (Z.of_nat t mod (2 * n)) n); lia.
Qed.

Section CylonAny.

Variable P : Platform.
Hypothesis codes_differ : code P MODE_RUNFWD <> code P MODE_RUNREV.

(** Every tick after the first moves the Cylon one place along its
    round. *)
Lemma cylon_step base t :
  _color base <> Black -> _mode base = MODE_CYLON -> _newMode base = false ->
  0 < _ledCount base ->
  update P (cylon_state P base t) = Some (cylon_state P base (S t)).
Proof.
  intros Hc Hm Hnew Hpos.
  set (n := _ledCount base) in *.
  pose proof (Z.mod_pos_bound (Z.of_nat t) (2 * n) ltac:(lia)) as Hr.
  pose proof (cylon_pos_range n t Hpos) as Hp.
  assert (Hok : forall l d, length l = Z.to_nat n ->
                  strip_ok (set_curdir (set_leds base l) d)).
  { intros l d Hl. unfold strip_ok. cbn. fold n. lia. }
  unfold update, cylon_state. fold n.
  cbn [_mode _newMode _curdir _leds _ledCount _color set_curdir set_leds].
  fold n. rewrite Hm, Hnew, (dir_code_fwd P codes_differ).
  unfold cylon_pos at 1 2 3.
  replace (Z.of_nat (S t)) with (Z.of_nat t + 1) by lia.
  unfold cylon_pos. replace (Z.of_nat (S t)) with (Z.of_nat t + 1) by lia.
  rewrite (succ_mod (Z.of_nat t) (2 * n)) by lia.
  set (r := Z.of_nat t mod (2 * n)) in *.
  cbv zeta.
  destruct (Z.ltb_spec r n) as [Hlt|Hge].
  - (* going up *)
    rewrite load_one_hot by lia.
    destruct (decide (n - 1 = r)) as [E|E].
    + cbn [mbind option_bind]. rewrite CRGB_eqb_refl.
      destruct (Z.eqb_spec r (2 * n - 1)); [lia|].
      destruct (Z.ltb_spec (r + 1) n); [lia|].
      replace (2 * n - 1 - (r + 1)) with r by lia. reflexivity.
    + cbn [mbind option_bind]. rewrite CRGB_eqb_neq by congruence.
      rewrite shiftFwd_spec by (try apply Hok; try apply length_one_hot; exact Hpos).
      cbn [_leds set_leds set_curdir].
      rewrite shifted_fwd_one_hot, Z.mod_small by lia.
      destruct (Z.eqb_spec r (2 * n - 1)); [lia|].
      destruct (Z.ltb_spec (r + 1) n); [|lia].
      reflexivity.
  - (* going down *)
    rewrite load_one_hot by lia.
    destruct (decide (0 = 2 * n - 1 - r)) as [E|E].
    + cbn [mbind option_bind]. rewrite CRGB_eqb_refl.
      destruct (Z.eqb_spec r (2 * n - 1)); [|lia].
      destruct (Z.ltb_spec 0 n); [|lia].
      replace (2 * n - 1 - r) with 0 by lia. reflexivity.
    + cbn [mbind option_bind]. rewrite CRGB_eqb_neq by congruence.
      rewrite shiftRev_spec by (try apply Hok; try apply length_one_hot; exact Hpos).
      cbn [_leds set_leds set_curdir].
      rewrite shifted_rev_one_hot, Z.mod_small by lia.
      destruct (Z.eqb_spec r (2 * n - 1)); [lia|].
      destruct (Z.ltb_spec (r + 1) n); [lia|].
      replace (2 * n - 1 - (r + 1)) with (2 * n - 1 - r - 1) by lia.
      reflexivity.
Qed.

Lemma cylon_state_0 base :
  0 < _ledCount base ->
  cylon_state P base 0
  = set_curdir (set_leds base (one_hot (_ledCount base) 0 (_color base)))
               (code P MODE_RUNFWD).
Proof.
  intros Hpos. unfold cylon_state, cylon_pos. cbv zeta.
  change (Z.of_nat 0) with 0. rewrite Z.mod_0_l by lia.
  destruct (Z.ltb_spec 0 (_ledCount base)); [reflexivity | lia].
Qed.

Lemma ticks_cylon k base t :
  _color base <> Black -> _mode base = MODE_CYLON -> _newMode base = false ->
  0 < _ledCount base ->
  ticks P k (cylon_state P base t) = Some (cylon_state P base (t + k)).
Proof.
  intros Hc Hm Hnew Hpos. revert t. induction k as [|k IH]; intros t.
  - rewrite Nat.add_0_r. reflexivity.
  - cbn [ticks]. rewrite cylon_step by assumption. cbn [mbind option_bind].
    rewrite IH. do 2 f_equal. lia.
Qed.

(** X14: the Cylon on a strip of any length N > 0, for a colour other than
    black.  After tick [t + 1] one pixel shows the colour, the one at
    [cylon_pos N t]: it goes up from 0 to N - 1 in the first N ticks of a
    round and down again in the next N, each end being shown twice.  The
    round takes 2N ticks, and the Cylon stays in step with the plain runs:
    on its way up it is where Run Forward is, on its way down where Run
    Reverse is. *)
Theorem cylon_round st c (t : nat) :
  strip_ok st -> 0 < _ledCount st -> c <> Black ->
  let n := _ledCount st in
  (exists s, ticks P (S t) (setCylon st c) = Some s /\
     _leds s = one_hot n (cylon_pos n t) c /\
     lit_indices c (_leds s) = [cylon_pos n t]) /\
  cylon_pos n (t + 2 * Z.to_nat n) = cylon_pos n t /\
  (Z.of_nat t mod (2 * n) < n -> cylon_pos n t = Z.of_nat t mod n) /\
  (n <= Z.of_nat t mod (2 * n) -> cylon_pos n t = (n - 1 - Z.of_nat t) mod n).
Proof.
  intros Hn Hpos Hc n.
  pose proof (cylon_pos_range n t Hpos) as Hp.
  split; [|split; [|split]].
  - cbn [ticks].
    rewrite update_cylon_new by (exact Hn || reflexivity || exact Hpos).
    cbn [mbind option_bind].
    exists (cylon_state P (set_newMode (setCylon st c) false) (0 + t)).
    split.
    + rewrite <- (ticks_cylon t (set_newMode (setCylon st c) false) 0%nat)
        by (try reflexivity; assumption).
      rewrite cylon_state_0 by exact Hpos. reflexivity.
    + cbn. fold n. split; [reflexivity|].
      apply lit_indices_one_hot; assumption.
  - unfold cylon_pos.
    replace (Z.of_nat (t + 2 * Z.to_nat n)) with (Z.of_nat t + 1 * (2 * n)) by lia.
    rewrite Z_mod_plus_full. reflexivity.
  - intros Hup. unfold cylon_pos.
    destruct (Z.ltb_spec (Z.of_nat t mod (2 * n)) n); [|lia].
    pose proof (Z.mod_pos_bound (Z.of_nat t) (2 * n) ltac:(lia)) as Hr.
    apply Z.mod_unique_pos with (q := 2 * (Z.of_nat t / (2 * n))); [lia|].
    pose proof (Z.div_mod (Z.of_nat t) (2 * n) ltac:(lia)). lia.
  - intros Hdown. unfold cylon_pos.
    destruct (Z.ltb_spec (Z.of_nat t mod (2 * n)) n); [lia|].
    pose proof (Z.mod_pos_bound (Z.of_nat t) (2 * n) ltac:(lia)) as Hr.
    apply Z.mod_unique_pos with (q := - (Z.of_nat t / (2 * n)) * 2 - 1).
    + lia.
    + pose proof (Z.div_mod (Z.of_nat t) (2 * n) ltac:(lia)). lia.
Qed.

End CylonAny.

(** ** Marquee comes round *)

Lemma testbit_iter_rotl m b (t : nat) i :
  1 <= m -> 0 <= b < 2 ^ m -> 0 <= i ->
  Z.testbit (Nat.iter t (rotl m) b) i
  = (i <? m) && Z.testbit b ((i - Z.of_nat t) mod m).
Proof.
  intros Hm Hb. revert i. induction t as [|t IH]; intros i Hi.
  - simpl. rewrite Z.sub_0_r. destruct (Z.ltb_spec i m).
    + rewrite Z.mod_small by lia. reflexivity.
    + apply (testbit_above m); [exact Hb | lia].
  - rewrite Nat.iter_succ, testbit_rotl by lia.
    destruct (Z.ltb_spec i m) as [Hlt|]; [|reflexivity]. simpl.
    destruct (Z.eqb_spec i 0) as [->|Hne].
    + rewrite IH by lia. destruct (Z.ltb_spec (m - 1) m); [|lia]. simpl.
      f_equal. replace (m - 1 - Z.of_nat t) with (0 - Z.of_nat (S t) + 1 * m) by lia.
      apply Z_mod_plus_full.
    + rewrite IH by lia. destruct (Z.ltb_spec (i - 1) m); [|lia]. simpl.
      do 2 f_equal. lia.
Qed.

Lemma iter_rotl_range m b (t : nat) :
  1 <= m -> 0 <= b < 2 ^ m -> 0 <= Nat.iter t (rotl m) b < 2 ^ m.
Proof.
  intros Hm Hb. destruct t as [|t]; [exact Hb|].
  rewrite Nat.iter_succ. apply rotl_range. exact Hm.
Qed.

Lemma iter_rotl_round m b :
  1 <= m -> 0 <= b < 2 ^ m -> Nat.iter (Z.to_nat m) (rotl m) b = b.
Proof.
  intros Hm Hb. apply Z.bits_inj'. intros i Hi.
  rewrite testbit_iter_rotl by assumption.
  destruct (Z.ltb_spec i m) as [Hlt|Hge].
  - simpl. f_equal.
    replace (i - Z.of_nat (Z.to_nat m)) with (i + (-1) * m) by lia.
    rewrite Z_mod_plus_full. apply Z.mod_small. lia.
  - symmetry. apply (testbit_above m); [exact Hb | lia].
Qed.

Lemma mod_back_fwd i k n :
  0 <= i < n -> ((i + k) mod n - k) mod n = i.
Proof.
  intros Hi. rewrite Zminus_mod_idemp_l.
  replace (i + k - k) with i by lia. apply Z.mod_small. exact Hi.
Qed.

Lemma mod_back_rev i k n :
  0 <= i < n -> ((i - k) mod n + k) mod n = i.
Proof.
  intros Hi. rewrite Zplus_mod_idemp_l.
  replace (i - k + k) with i by lia. apply Z.mod_small. exact Hi.
Qed.

Section Rounds.

Variable P : Platform.

(** X15: Marquee comes round.  When the bitmap has no bit set at or above
    the active width [m = min N 32] (every 32-bit bitmap on a strip of 32
    pixels or more), the strip shows after [m] more ticks exactly what it
    shows now. *)
Theorem marquee_comes_round st c b (t : nat) :
  strip_ok st -> 0 < _ledCount st ->
  let m := Z.min (_ledCount st) 32 in
  0 <= b < 2 ^ m ->
  exists s s',
    ticks P (S t) (setMarquee st c b) = Some s /\
    ticks P (S (t + Z.to_nat m)) (setMarquee st c b) = Some s' /\
    _leds s' = _leds s.
Proof.
  intros Hn Hpos m Hb.
  destruct (marquee_rotates P st c b t Hn Hpos Hb) as (s & Hs & Hl).
  destruct (marquee_rotates P st c b (t + Z.to_nat m) Hn Hpos Hb) as (s' & Hs' & Hl').
  exists s, s'. split; [exact Hs|]. split; [exact Hs'|].
  rewrite Hl, Hl'. fold m. rewrite Nat.iter_add, iter_rotl_round by lia.
  reflexivity.
Qed.

(** *** The brightness of Breathe *)

Lemma dim_formula c : 0 <= c <= 15 -> dim c = (15 - c) ^ 2 + 10.
Proof.
  intros Hc.
  assert (H : (Z.to_nat c < 16)%nat) by lia.
  rewrite <- (Z2Nat.id c) by lia.
  set (k := Z.to_nat c) in *. clearbody k.
  do 16 (destruct k as [|k]; [reflexivity|]). lia.
Qed.

(** X16: what Breathe shows.  Tick [t + 1] after [setBreathe] fills the
    whole strip with the base colour dimmed by [x^2 + 10], where [x] runs
    from 15 down to 0 during 16 ticks and back up to 15 during the next
    16: the scale stays between 10 and 235, so the strip is never asked to
    go dark. *)
Theorem breathe_brightness st c (t : nat) :
  code P MODE_RUNFWD <> code P MODE_RUNREV -> strip_ok st ->
  let x := 15 - breathe_step t in
  exists s, ticks P (S t) (setBreathe P st c) = Some s /\
    _leds s = replicate (length (_leds st)) (nscale8_video P c (x ^ 2 + 10)) /\
    0 <= x <= 15 /\ 10 <= x ^ 2 + 10 <= 235.
Proof.
  intros Hd Hn x. pose proof (breathe_step_range t) as Hr.
  rewrite (ticks_setBreathe P Hd t st c Hn).
  eexists. split; [reflexivity|]. split.
  - cbn [_leds breathe_at set_curdir set_config set_leds set_newMode].
    unfold breathe_frame. rewrite breathe_walk_step, dim_formula by exact Hr.
    reflexivity.
  - unfold x. split; [lia|]. nia.
Qed.

(** *** The hues of the rainbow *)

(** X17: the rainbow on its way round the strip.  The first tick of a
    Rainbow mode puts hue [i * (256 / N)], the quotient taken in
    integers, on pixel [i]; the hue is a byte, so nothing is lost when
    [CHSV] takes it.  [k] ticks later that hue is on pixel
    [(i + k) mod N] after Rainbow Forward and on pixel [(i - k) mod N]
    after Rainbow Reverse.  On more than 256 pixels the step is 0 and the
    first tick paints the whole strip in the one colour of hue 0. *)
Theorem rainbow_hues st (i k : nat) :
  strip_ok st -> Z.of_nat i < _ledCount st ->
  let n := _ledCount st in
  let hue := Z.of_nat i * Z.quot 256 n in
  0 <= hue <= 255 /\
  (exists s1 sk,
     update P (setRainbowFwd st) = Some s1 /\ ticks P k s1 = Some sk /\
     _leds s1 !! i = Some (hsv2rgb P hue 255 255) /\
     _leds sk !! Z.to_nat ((Z.of_nat i + Z.of_nat k) mod n)
     = Some (hsv2rgb P hue 255 255)) /\
  (exists s1 sk,
     update P (setRainbowRev st) = Some s1 /\ ticks P k s1 = Some sk /\
     _leds s1 !! i = Some (hsv2rgb P hue 255 255) /\
     _leds sk !! Z.to_nat ((Z.of_nat i - Z.of_nat k) mod n)
     = Some (hsv2rgb P hue 255 255)) /\
  (256 < n ->
   exists s1, update P (setRainbowFwd st) = Some s1 /\
              _leds s1 = replicate (length (_leds st)) (hsv2rgb P 0 255 255)).
Proof.
  intros Hn Hi n hue.
  assert (Hpos : 0 < n) by (unfold n; lia).
  assert (Hlen : length (rainbow P n) = Z.to_nat n) by apply length_rainbow.
  assert (Hok : forall s, _ledCount s = n -> _leds s = rainbow P n -> strip_ok s).
  { intros s H1 H2. unfold strip_ok. rewrite H1, H2, Hlen. lia. }
  pose proof (Z.mod_pos_bound (Z.of_nat i + Z.of_nat k) n Hpos) as Hf.
  pose proof (Z.mod_pos_bound (Z.of_nat i - Z.of_nat k) n Hpos) as Hr.
  split; [|split; [|split]].
  - pose proof (hue_fits n (Z.of_nat i) ltac:(lia)). unfold hue. lia.
  - eexists _, _. split.
    { apply (proj1 (update_rainbow_new P (setRainbowFwd st) Hn Hpos eq_refl)).
      reflexivity. }
    split.
    { apply ticks_run_fwd; try reflexivity; [|exact Hpos].
      apply Hok; reflexivity. }
    cbn [_leds set_mode set_newMode set_leds].
    change (_ledCount (setRainbowFwd st)) with n.
    split; [apply lookup_rainbow; exact Hi|].
    rewrite lookup_iter_shifted_fwd by (rewrite Hlen; lia).
    rewrite Hlen, !Z2Nat.id by lia.
    rewrite mod_back_fwd by lia. rewrite Nat2Z.id.
    apply lookup_rainbow; exact Hi.
  - eexists _, _. split.
    { apply (proj2 (update_rainbow_new P (setRainbowRev st) Hn Hpos eq_refl)).
      reflexivity. }
    split.
    { apply ticks_run_rev; try reflexivity; [|exact Hpos].
      apply Hok; reflexivity. }
    cbn [_leds set_mode set_newMode set_leds].
    change (_ledCount (setRainbowRev st)) with n.
    split; [apply lookup_rainbow; exact Hi|].
    rewrite lookup_iter_shifted_rev by (rewrite Hlen; lia).
    rewrite Hlen, !Z2Nat.id by lia.
    rewrite mod_back_rev by lia. rewrite Nat2Z.id.
    apply lookup_rainbow; exact Hi.
  - intros H256.
    rewrite (proj1 (update_rainbow_new P (setRainbowFwd st) Hn Hpos eq_refl) eq_refl).
    eexists. split; [reflexivity|].
    cbn [_leds set_mode set_newMode set_leds].
    change (_ledCount (setRainbowFwd st)) with n.
    apply list_eq_pointwise.
    + rewrite length_rainbow, length_replicate. unfold strip_ok in Hn. fold n in Hn. lia.
    + intros j Hj. rewrite length_rainbow in Hj.
      rewrite lookup_rainbow, lookup_replicate_lt
        by (unfold strip_ok in Hn; fold n in Hn; lia).
      rewrite Z.quot_small by lia. rewrite Z.mul_0_r. reflexivity.
Qed.

End Rounds.

(** ** A strip of no pixels *)

Section Edge.

Variable P : Platform.

(** X18: on a strip of no pixels the moving modes leave the array.  Every
    tick of Run Forward, Run Reverse and Cylon reads or writes pixel 0 or
    pixel -1, and every tick of a Rainbow mode divides by the pixel count:
    none of them has a defined result.  The ticks of the other modes
    return and leave the empty array empty. *)
Theorem no_pixels st :
  _ledCount st = 0 -> _leds st = [] ->
  (_mode st = MODE_RUNFWD \/ _mode st = MODE_RUNREV \/ _mode st = MODE_CYLON \/
   _mode st = MODE_RAINBF \/ _mode st = MODE_RAINBR ->
   update P st = None) /\
  (config_in_table st ->
   _mode st = MODE_UNDEF \/ _mode st = MODE_OFF \/ _mode st = MODE_ON \/
   _mode st = MODE_BITMAP \/ _mode st = MODE_MARQUEE \/ _mode st = MODE_BREATHE ->
   exists st', update P st = Some st' /\ _leds st' = []).
Proof.
  intros HN Hl. destruct st as [n leds nm m col cfg dir bm].
  simpl in HN, Hl. subst n leds. split.
  - simpl. intros Hm. unfold update. simpl.
    destruct Hm as [->|[->|[->|[->| ->]]]]; destruct nm; try reflexivity.
    + destruct (dir =? code P MODE_RUNFWD); reflexivity.
  - unfold config_in_table. cbn [_config _mode]. intros Hc Hm.
    destruct Hm as [->|[->|[->|[->|[->| ->]]]]].
    1-5: unfold update; simpl; destruct nm; eexists; split; reflexivity.
    unfold update.
    cbn [_mode _newMode _config _color _leds _ledCount _curdir].
    assert (H0 : load _dimming 0 = Some (dim 0)) by reflexivity.
    destruct nm;
      cbn [_mode _newMode _config _color _leds _ledCount _curdir
           set_config set_curdir set_newMode set_leds];
      rewrite ?H0, ?(load_dimming cfg Hc); cbn [mbind option_bind];
      change (fill_solid [] 0 _) with (Some (@nil CRGB));
      cbn [mbind option_bind _curdir _config set_leds];
      repeat match goal with |- context [if ?b then _ else _] => destruct b end;
      eexists; split; reflexivity.
Qed.

End Edge.

(** ** The sampler sketch *)

Section Sampler.

Variable P : Platform.

Lemma sampler_pattern_step st k : op_step P st (sampler_pattern P st k).
Proof.
  unfold sampler_pattern.
  repeat match goal with
  | |- context [match ?x with _ => _ end] => destruct x
  end; constructor.
Qed.

Lemma sampler_loop_well_formed w c st :
  well_formed st ->
  exists st', sampler_loop P w (c, st) = Some ((c + 1) mod 2 ^ w, st') /\
              well_formed st' /\ length (_leds st') = length (_leds st).
Proof.
  intros Hwf. unfold sampler_loop.
  assert (Hwf' : op_step P st (if c mod 64 =? 0
                               then sampler_pattern P st ((c / 64) mod 7) else st)
                 \/ (if c mod 64 =? 0
                     then sampler_pattern P st ((c / 64) mod 7) else st) = st).
  { destruct (c mod 64 =? 0); [left; apply sampler_pattern_step | right; reflexivity]. }
  set (s1 := if c mod 64 =? 0 then sampler_pattern P st ((c / 64) mod 7) else st) in *.
  assert (H1 : well_formed s1 /\ length (_leds s1) = length (_leds st)).
  { destruct Hwf' as [Hop | ->]; [|auto]. split.
    - eapply op_step_well_formed; eassumption.
    - apply (op_step_same_strip P _ _ Hop). }
  destruct H1 as [Hwf1 Hlen1].
  destruct (update_total P _ Hwf1) as [st' Hu].
  exists st'. rewrite Hu. split; [reflexivity|]. split.
  - eapply op_step_well_formed; [exact Hwf1 | apply step_update; exact Hu].
  - rewrite <- Hlen1. apply (update_same_strip P _ _ Hu).
Qed.

Lemma sampler_setup_full (leds : list CRGB) junk :
  length leds = 16%nat ->
  exists st0, sampler_setup P (LEDControl_new 16 leds junk) = Some st0 /\
              _leds st0 = replicate 16 Blue /\ _ledCount st0 = 16 /\
              config_in_table st0.
Proof.
  intros Hl.
  do 17 (destruct leds as [|? leds]; try discriminate Hl).
  eexists. split; [vm_compute; reflexivity|].
  split; [reflexivity|]. split; [reflexivity|].
  unfold config_in_table, _numdims. simpl. lia.
Qed.

(** X19: the sampler sketch never leaves its array.  On an array of 16
    pixels [setup] returns with the progress bar full, all 16 pixels blue,
    and after it [loop] can run any number of times: every round returns,
    the array keeps its 16 pixels, and the counter counts the rounds
    modulo the range of [unsigned int]. *)
Theorem sampler_runs (leds : list CRGB) junk w (n : nat) :
  length leds = 16%nat -> 0 <= w ->
  exists st0 st,
    sampler_setup P (LEDControl_new 16 leds junk) = Some st0 /\
    _leds st0 = replicate 16 Blue /\
    sampler_run P w n (0, st0) = Some (Z.of_nat n mod 2 ^ w, st) /\
    length (_leds st) = 16%nat.
Proof.
  intros Hl Hw.
  destruct (sampler_setup_full leds junk Hl) as (st0 & H0 & Hb & HN & Hc).
  assert (Hwf0 : well_formed st0).
  { split; [|split; [lia | exact Hc]].
    unfold strip_ok. rewrite HN, Hb. reflexivity. }
  assert (Hrun : forall k c s, well_formed s ->
            exists s', sampler_run P w k (c mod 2 ^ w, s)
                       = Some ((c + Z.of_nat k) mod 2 ^ w, s') /\
                       well_formed s' /\ length (_leds s') = length (_leds s)).
  { induction k as [|k IH]; intros c s Hs.
    - exists s. rewrite Z.add_0_r. split; [reflexivity | auto].
    - destruct (sampler_loop_well_formed w (c mod 2 ^ w) s Hs)
        as (s1 & H1 & Hs1 & Hl1).
      cbn [sampler_run]. rewrite H1. cbn [mbind option_bind].
      rewrite Z.add_mod_idemp_l by (apply Z.pow_nonzero; lia).
      destruct (IH (c + 1) s1 Hs1) as (s' & H' & Hs' & Hl').
      exists s'. rewrite H'. split; [do 3 f_equal; lia|].
      split; [exact Hs' | congruence]. }
  destruct (Hrun n 0 st0 Hwf0) as (st & Hst & _ & Hlen).
  exists st0, st. split; [exact H0|]. split; [exact Hb|]. split.
  - rewrite Z.mod_0_l in Hst by (apply Z.pow_nonzero; lia). exact Hst.
  - rewrite Hlen, Hb. reflexivity.
Qed.

End Sampler.

(** ** The further properties on concrete strips *)

Lemma ticks_never_leave_the_array_witness :
  let P := sample_platform in
  let leds := [Red; Black; Red] in
  let s0 := LEDControl_new 3 leds 0 in
  (leds <> [] /\ calls P s0 (setCylon (setBreathe P s0 Red) Red)) /\
  exists st', ticks P 9 (setCylon (setBreathe P s0 Red) Red) = Some st' /\
              length (_leds st') = 3%nat.
Proof.
  intros P leds s0.
  assert (Hl : leds <> []) by discriminate.
  assert (Hc : calls P (LEDControl_new (Z.of_nat (length leds)) leds 0)
                 (setCylon (setBreathe P s0 Red) Red)).
  { eapply calls_more; [apply (step_setBreathe P s0 Red)|].
    eapply calls_more; [apply step_setCylon|]. apply calls_none. }
  split; [split; [exact Hl | exact Hc]|].
  exact (ticks_never_leave_the_array P leds 0 _ 9 Hl Hc).
Defined.

Lemma calls_same_strip_witness :
  let P := sample_platform in
  let s0 := LEDControl_new 3 [Red; Black; Red] 0 in
  exists s1,
    update P (setRunFwd s0 Red) = Some s1 /\
    calls P s0 s1 /\ same_strip s0 s1.
Proof.
  intros P s0. eexists. split; [vm_compute; reflexivity|].
  match goal with |- calls ?P ?a ?b /\ _ => assert (Hc : calls P a b) end.
  { eapply calls_more; [apply (step_setRunFwd P s0 Red)|].
    eapply calls_more; [apply step_update; vm_compute; reflexivity|].
    apply calls_none. }
  split; [exact Hc|]. exact (calls_same_strip P _ _ Hc).
Defined.

Lemma update_clears_newMode_witness :
  let P := sample_platform in
  let s0 := setMarquee (LEDControl_new 3 [Red; Black; Red] 0) Red 5 in
  exists s1, update P s0 = Some s1 /\ _newMode s0 = true /\ _newMode s1 = false.
Proof.
  intros P s0. eexists.
  match goal with |- ?u = Some ?s /\ _ => assert (Hu : u = Some s) end.
  { vm_compute. reflexivity. }
  split; [exact Hu|]. split; [reflexivity|].
  apply (proj2 (update_clears_newMode P _ _ Hu)). discriminate.
Defined.

Lemma mode_after_tick_witness :
  let P := sample_platform in
  let s0 := setRainbowRev (LEDControl_new 3 [Red; Black; Red] 0) in
  exists s1, update P s0 = Some s1 /\
             getMode P s0 = code P MODE_RAINBR /\
             getMode P s1 = code P MODE_RUNREV.
Proof.
  intros P s0. eexists.
  match goal with |- ?u = Some ?s /\ _ => assert (Hu : u = Some s) end.
  { vm_compute. reflexivity. }
  split; [exact Hu|]. split; [reflexivity|].
  exact (mode_after_tick P _ _ Hu).
Defined.

Lemma impossible_branches_witness :
  let P := sample_platform in
  let s := setRainbowFwd (LEDControl_new 3 [Red; Black; Red] 0) in
  reachable P s /\ _mode s <> MODE_UNDEF /\ _newMode s = true.
Proof.
  intros P s.
  assert (Hr : reachable P s).
  { eapply reach_step; [apply reach_new | apply step_setRainbowFwd]. }
  split; [exact Hr|].
  destruct (impossible_branches P s Hr) as (H1 & H2 & _).
  split; [exact H1 | apply H2; left; reflexivity].
Defined.

Lemma setOneColor_shown_witness :
  let P := sample_platform in
  let st := setCylon (LEDControl_new 3 [Red; Black; Red] 0) Red in
  strip_ok st /\
  exists s1, update P (setOneColor st Blue) = Some s1 /\
             _leds s1 = [Blue; Blue; Blue].
Proof.
  intros P st. assert (Hok : strip_ok st) by reflexivity.
  split; [exact Hok|]. exact (setOneColor_shown P st Blue Hok).
Defined.

Lemma setPattern_shown_witness :
  let P := sample_platform in
  let st := LEDControl_new 3 [Red; Black; Red] 0 in
  (strip_ok st /\ 0 <= 13 < 2 ^ 32) /\
  exists s1, update P (setPattern st Blue 13) = Some s1 /\
    length (_leds s1) = 3%nat /\
    forall i : nat, (i < 3)%nat ->
      _leds s1 !! i
      = Some (if (Z.of_nat i <? 32) && Z.testbit 13 (Z.of_nat i)
              then Blue else Black).
Proof.
  intros P st. assert (Hok : strip_ok st) by reflexivity.
  assert (Hb : 0 <= 13 < 2 ^ 32) by (split; [lia | reflexivity]).
  split; [split; assumption|]. exact (setPattern_shown P st Blue 13 Hok Hb).
Defined.

Lemma progress_grows_witness :
  let P := sample_platform in
  let st := LEDControl_new 16 (replicate 16 Black) 0 in
  (strip_ok st /\ 0 < _ledCount st < 32 /\ 35 <= 70) /\
  exists sp sq lp lq,
    update P (setProgress P st Blue 35) = Some sp /\
    update P (setProgress P st Blue 70) = Some sq /\
    _leds sp = progress_bar 16 lp Blue /\
    _leds sq = progress_bar 16 lq Blue /\
    0 <= lp <= lq /\ lq <= 16 /\
    (70 <= 0 -> lq = 0) /\ (100 <= 35 -> lp = 16).
Proof.
  intros P st. assert (Hok : strip_ok st) by reflexivity.
  assert (HN : 0 < _ledCount st < 32) by (split; reflexivity).
  assert (Hpq : 35 <= 70) by lia.
  split; [repeat split; (assumption || apply HN)|].
  exact (progress_grows P st Blue 35 70 Hok HN Hpq).
Defined.

Lemma shifts_undo_each_other_witness :
  let st := LEDControl_new 3 [Red; Black; Blue] 0 in
  (strip_ok st /\ 0 < _ledCount st) /\
  (exists s1, shiftFwd st = Some s1 /\ shiftRev s1 = Some st) /\
  (exists s1, shiftRev st = Some s1 /\ shiftFwd s1 = Some st).
Proof.
  intros st. assert (Hok : strip_ok st) by reflexivity.
  assert (Hpos : 0 < _ledCount st) by reflexivity.
  split; [split; assumption|]. exact (shifts_undo_each_other st Hok Hpos).
Defined.

Lemma runRev_one_pixel_witness :
  let P := sample_platform in
  let st := LEDControl_new 3 [Red; Black; Blue] 0 in
  (strip_ok st /\ 0 < _ledCount st /\ Red <> Black) /\
  exists s1 sk,
    update P (setRunRev st Red) = Some s1 /\
    _leds s1 = one_hot 3 2 Red /\
    ticks P 4 s1 = Some sk /\
    _leds sk = one_hot 3 1 Red /\
    lit_indices Red (_leds sk) = [1].
Proof.
  intros P st. assert (Hok : strip_ok st) by reflexivity.
  assert (Hpos : 0 < _ledCount st) by reflexivity.
  assert (Hc : Red <> Black) by discriminate.
  split; [repeat split; assumption|].
  exact (runRev_one_pixel P st Red 4 Hok Hpos Hc).
Defined.

Lemma run_comes_round_witness :
  let P := sample_platform in
  let st := mkLEDControl 3 [Red; Black; Blue] false MODE_RUNREV Red 0 0 0 in
  (strip_ok st /\ 0 < _ledCount st /\ _newMode st = false /\
   (_mode st = MODE_RUNFWD \/ _mode st = MODE_RUNREV)) /\
  ticks P 3 st = Some st.
Proof.
  intros P st. assert (Hok : strip_ok st) by reflexivity.
  assert (Hpos : 0 < _ledCount st) by reflexivity.
  assert (Hnew : _newMode st = false) by reflexivity.
  assert (Hm : _mode st = MODE_RUNFWD \/ _mode st = MODE_RUNREV)
    by (right; reflexivity).
  split; [repeat split; assumption|].
  exact (run_comes_round P st Hok Hpos Hnew Hm).
Defined.

Lemma moving_modes_permute_witness :
  let P := sample_platform in
  let st := mkLEDControl 3 [Red; Black; Blue] false MODE_CYLON Red 0 3 0 in
  exists st',
    (strip_ok st /\ 0 < _ledCount st /\ _newMode st = false /\
     (_mode st = MODE_RUNFWD \/ _mode st = MODE_RUNREV \/ _mode st = MODE_CYLON) /\
     update P st = Some st') /\
    Permutation (_leds st') [Red; Black; Blue].
Proof.
  intros P st. eexists.
  assert (Hok : strip_ok st) by reflexivity.
  assert (Hpos : 0 < _ledCount st) by reflexivity.
  assert (Hnew : _newMode st = false) by reflexivity.
  assert (Hm : _mode st = MODE_RUNFWD \/ _mode st = MODE_RUNREV \/
               _mode st = MODE_CYLON) by (right; right; reflexivity).
  match goal with |- (_ /\ _ /\ _ /\ _ /\ ?u = Some ?s) /\ _ =>
    assert (Hu : u = Some s)
  end.
  { vm_compute. reflexivity. }
  split; [repeat split; assumption|].
  exact (moving_modes_permute P st _ Hok Hpos Hnew Hm Hu).
Defined.

Lemma cylon_round_witness :
  let P := sample_platform in
  let st := LEDControl_new 5 (replicate 5 Black) 0 in
  (code P MODE_RUNFWD <> code P MODE_RUNREV /\ strip_ok st /\
   0 < _ledCount st /\ Red <> Black) /\
  exists s, ticks P 8 (setCylon st Red) = Some s /\
    _leds s = one_hot 5 (cylon_pos 5 7) Red /\
    lit_indices Red (_leds s) = [cylon_pos 5 7].
Proof.
  intros P st.
  assert (Hd : code P MODE_RUNFWD <> code P MODE_RUNREV) by discriminate.
  assert (Hok : strip_ok st) by reflexivity.
  assert (Hpos : 0 < _ledCount st) by reflexivity.
  assert (Hc : Red <> Black) by discriminate.
  split; [repeat split; assumption|].
  exact (proj1 (cylon_round P Hd st Red 7 Hok Hpos Hc)).
Defined.

Lemma marquee_comes_round_witness :
  let P := sample_platform in
  let st := LEDControl_new 16 (replicate 16 Black) 0 in
  (strip_ok st /\ 0 < _ledCount st /\ 0 <= 52428 < 2 ^ Z.min (_ledCount st) 32) /\
  exists s s',
    ticks P 3 (setMarquee st Yellow 52428) = Some s /\
    ticks P 19 (setMarquee st Yellow 52428) = Some s' /\
    _leds s' = _leds s.
Proof.
  intros P st. assert (Hok : strip_ok st) by reflexivity.
  assert (Hpos : 0 < _ledCount st) by reflexivity.
  assert (Hb : 0 <= 52428 < 2 ^ Z.min (_ledCount st) 32)
    by (split; [lia | reflexivity]).
  split; [repeat split; (assumption || apply Hb)|].
  exact (marquee_comes_round P st Yellow 52428 2 Hok Hpos Hb).
Defined.

Lemma breathe_brightness_witness :
  let P := sample_platform in
  let st := LEDControl_new 2 [Black; Black] 0 in
  (code P MODE_RUNFWD <> code P MODE_RUNREV /\ strip_ok st) /\
  exists s, ticks P 18 (setBreathe P st Orange) = Some s /\
    _leds s = replicate 2 (nscale8_video P Orange (1 ^ 2 + 10)) /\
    0 <= 1 <= 15 /\ 10 <= 1 ^ 2 + 10 <= 235.
Proof.
  intros P st.
  assert (Hd : code P MODE_RUNFWD <> code P MODE_RUNREV) by discriminate.
  assert (Hok : strip_ok st) by reflexivity.
  split; [split; assumption|].
  exact (breathe_brightness P st Orange 17 Hd Hok).
Defined.

Lemma rainbow_hues_witness :
  let P := sample_platform in
  let st := LEDControl_new 7 (replicate 7 Black) 0 in
  (strip_ok st /\ Z.of_nat 6 < _ledCount st) /\
  0 <= 216 <= 255 /\
  exists s1 sk,
    update P (setRainbowFwd st) = Some s1 /\ ticks P 3 s1 = Some sk /\
    _leds s1 !! 6%nat = Some (hsv2rgb P 216 255 255) /\
    _leds sk !! 2%nat = Some (hsv2rgb P 216 255 255).
Proof.
  intros P st. assert (Hok : strip_ok st) by reflexivity.
  assert (Hi : Z.of_nat 6 < _ledCount st) by reflexivity.
  split; [split; assumption|].
  destruct (rainbow_hues P st 6 3 Hok Hi) as (Hh & Hf & _).
  split; [exact Hh | exact Hf].
Defined.

Lemma no_pixels_witness :
  let P := sample_platform in
  let st := setRunFwd (LEDControl_new 0 [] 0) Red in
  (_ledCount st = 0 /\ _leds st = [] /\ _mode st = MODE_RUNFWD) /\
  update P st = None.
Proof.
  intros P st. assert (HN : _ledCount st = 0) by reflexivity.
  assert (Hl : _leds st = []) by reflexivity.
  split; [repeat split|].
  apply (proj1 (no_pixels P st HN Hl)). left. reflexivity.
Defined.

Lemma sampler_runs_witness :
  let P := sample_platform in
  let leds := replicate 16 Black in
  (length leds = 16%nat /\ 0 <= 16) /\
  exists st0 st,
    sampler_setup P (LEDControl_new 16 leds 0) = Some st0 /\
    _leds st0 = replicate 16 Blue /\
    sampler_run P 16 500 (0, st0) = Some (Z.of_nat 500 mod 2 ^ 16, st) /\
    length (_leds st) = 16%nat.
Proof.
  intros P leds. assert (Hl : length leds = 16%nat) by reflexivity.
  assert (Hw : 0 <= 16) by lia.
  split; [split; assumption|].
  exact (sampler_runs P leds 0 16 500 Hl Hw).
Defined.

